(** * xv6 multiclient chat server (user/chatserver.c): model and properties

    A shallow embedding of the event-driven chat server.  The program state
    is the three globals of the C file (the [clients] table, [server_sock]
    and [num_clients]); every system call and every [printf] the program
    performs is appended to a trace, and the results of the system calls
    are supplied by an environment that may look at the whole history. *)

From Stdlib Require Import ZArith List Ascii String Bool Lia.
From stdpp Require Import base list.
Import ListNotations.
Local Open Scope Z_scope.

(** ** Constants of chatserver.c and user.h *)

Definition MAX_CLIENTS : nat := 14.
Definition BUF_SIZE : Z := 512.
Definition NAME_SIZE : nat := 32.
Definition LIST_MSG_SIZE : nat := 512.
Definition SERVER_PORT : Z := 80.
Definition AF_INET : Z := 2.

Definition POLLIN : Z := 0x001.
Definition POLLOUT : Z := 0x004.
Definition POLLERR : Z := 0x008.
Definition POLLHUP : Z := 0x010.
Definition POLLNVAL : Z := 0x020.

(** kernel/fcntl.h *)
Definition O_NONBLOCK : Z := 0x800.
Definition F_GETFL : Z := 3.
Definition F_SETFL : Z := 4.
Definition EAGAIN : Z := 11.

(** ** Characters and C strings *)

Definition NUL : ascii := "000"%char.
Definition LF : ascii := "010"%char.
Definition CR : ascii := "013"%char.

(** A C string literal, without its terminating NUL. *)
Definition str (s : string) : list ascii := list_ascii_of_string s.

(** The string held by a char array: the bytes before the first NUL.  This
    is what [strlen], [strcpy], [printf("%s")] and the copy loops
    [for (k = 0; a[k]; k++)] read. *)
Fixpoint cstr (a : list ascii) : list ascii :=
  match a with
  | [] => []
  | c :: a' => if Ascii.eqb c NUL then [] else c :: cstr a'
  end.

(** [dst[k] = s[0]; dst[k+1] = s[1]; ...] *)
Fixpoint store_at (dst : list ascii) (k : nat) (s : list ascii) : list ascii :=
  match s with
  | [] => dst
  | c :: s' => store_at (<[k:=c]> dst) (S k) s'
  end.

(** [strcpy(dst, s)]: the bytes of the string and its terminator. *)
Definition strcpy (dst : list ascii) (s : list ascii) : list ascii :=
  store_at dst 0 (s ++ [NUL]).

(** ** Data model *)

(** [struct client]. *)
Record client := mkClient {
  fd : Z;
  active : bool;
  name : list ascii;
  addr : Z;
  port : Z
}.

(** [struct pollfd]. *)
Record pollfd := mkPollfd {
  pfd : Z;
  events : Z;
  revents : Z
}.

(** What a [read] on a socket can deliver. *)
Inductive read_outcome :=
| RData (d : list ascii)
| REof
| RNotReady
| RError.

(** Arguments of a [printf] call; a string argument is recorded as the
    string it points to. *)
Inductive parg :=
| PStr (s : list ascii)
| PInt (z : Z).

(** System calls and log lines, in the order the program performs them. *)
Inductive event :=
| EvPrintf (fmt : string) (args : list parg)
| EvInetaddress (host : list ascii)
| EvSocket (ret : Z)
| EvBind (sock : Z) (ret : Z)
| EvListen (sock : Z) (backlog : Z) (ret : Z)
| EvFcntl (h : Z) (cmd : Z) (arg : Z)
| EvPoll (fds : list pollfd) (ready : Z) (revs : list Z)
| EvAccept (sock : Z) (ret : Z) (sin_addr : Z) (sin_port : Z)
| EvRead (h : Z) (r : read_outcome)
| EvWrite (h : Z) (msg : list ascii) (ret : Z)
| EvClose (h : Z)
| EvExit (code : Z).

(** The environment: what each system call returns, given the history. *)
Record Env := mkEnv {
  env_socket : list event -> Z;
  env_bind : list event -> Z -> Z;
  env_listen : list event -> Z -> Z;
  env_poll : list event -> list pollfd -> Z * list Z;
  env_accept : list event -> Z -> Z * Z * Z;
  env_read : list event -> Z -> read_outcome;
  env_write : list event -> Z -> list ascii -> Z
}.

(** The globals of chatserver.c together with the trace. *)
Record state := mkState {
  clients : list client;
  server_sock : Z;
  num_clients : Z;
  trace : list event
}.

Definition set_clients (f : list client -> list client) (st : state) : state :=
  mkState (f (clients st)) (server_sock st) (num_clients st) (trace st).

Definition set_num_clients (f : Z -> Z) (st : state) : state :=
  mkState (clients st) (server_sock st) (f (num_clients st)) (trace st).

Definition emit (e : event) (st : state) : state :=
  mkState (clients st) (server_sock st) (num_clients st) (trace st ++ [e]).

Definition printf (fmt : string) (args : list parg) (st : state) : state :=
  emit (EvPrintf fmt args) st.

Definition sys_close (h : Z) (st : state) : state :=
  emit (EvClose h) st.

(** Modelled from the spec: the kernel's socket read is not part of src/;
    the repository's notes give its return values: the number of bytes for
    data, 0 at end of file, and -1 both when no data is available on a
    non-blocking handle (EAGAIN is kept in the kernel's per-process error
    number, which this program has no call to read) and on a hard error. *)
Definition read_ret (r : read_outcome) : Z :=
  match r with
  | RData d => Z.of_nat (length d)
  | REof => 0
  | RNotReady => -1
  | RError => -1
  end.

Definition read_buf (r : read_outcome) : list ascii :=
  match r with
  | RData d => d
  | _ => []
  end.

(** [read(h, buf, max)] delivers at most [max] bytes. *)
Definition clamp_read (max : nat) (r : read_outcome) : read_outcome :=
  match r with
  | RData d => RData (take max d)
  | _ => r
  end.

(** Modelled from the spec: the blocking-mode flag of a handle is kept by
    the kernel (struct file, not part of src/).  According to the
    repository's notes a handle is created in blocking mode and changes
    mode only through [fcntl(h, F_SETFL, flags)]. *)
Fixpoint nonblocking_mode (tr : list event) (h : Z) (cur : bool) : bool :=
  match tr with
  | [] => cur
  | EvSocket ret :: tr' =>
      nonblocking_mode tr' h (if ret =? h then false else cur)
  | EvAccept _ ret _ _ :: tr' =>
      nonblocking_mode tr' h (if ret =? h then false else cur)
  | EvFcntl h' cmd arg :: tr' =>
      nonblocking_mode tr' h
        (if (h' =? h) && (cmd =? F_SETFL)
         then negb (Z.land arg O_NONBLOCK =? 0) else cur)
  | _ :: tr' => nonblocking_mode tr' h cur
  end.

Definition is_nonblocking (st : state) (h : Z) : bool :=
  nonblocking_mode (trace st) h false.

(** ** Views of a trace used in the statements *)

Fixpoint writes_of (tr : list event) : list (Z * list ascii) :=
  match tr with
  | [] => []
  | EvWrite h msg _ :: tr' => (h, msg) :: writes_of tr'
  | _ :: tr' => writes_of tr'
  end.

Fixpoint closes_of (tr : list event) : list Z :=
  match tr with
  | [] => []
  | EvClose h :: tr' => h :: closes_of tr'
  | _ :: tr' => closes_of tr'
  end.

Fixpoint reads_of (tr : list event) : list Z :=
  match tr with
  | [] => []
  | EvRead h _ :: tr' => h :: reads_of tr'
  | _ :: tr' => reads_of tr'
  end.

Fixpoint printfs_of (tr : list event) : list (string * list parg) :=
  match tr with
  | [] => []
  | EvPrintf fmt args :: tr' => (fmt, args) :: printfs_of tr'
  | _ :: tr' => printfs_of tr'
  end.

Definition disconnected_fmt : string :=
  "chatserver: client '%s' disconnected (slot %d, fd %d)\n".

Definition server_full_fmt : string :=
  "chatserver: server full, rejecting connection\n".

Definition connected_fmt : string :=
  "chatserver: new client connected (slot %d, fd %d)\n".

Definition failed_to_send : string :=
  "chatserver: failed to send to client %d\n".

(** The events a broadcast may produce: writes and log lines. *)
Definition bcast_event (e : event) : bool :=
  match e with
  | EvWrite _ _ _ => true
  | EvPrintf _ _ => true
  | _ => false
  end.

(** The number of writes that returned an error. *)
Fixpoint failed_writes (tr : list event) : nat :=
  match tr with
  | [] => O
  | EvWrite _ _ ret :: tr' =>
      if ret <? 0 then S (failed_writes tr') else failed_writes tr'
  | _ :: tr' => failed_writes tr'
  end.

Definition is_fcntl (e : event) : bool :=
  match e with
  | EvFcntl _ _ _ => true
  | _ => false
  end.

(** The slots a broadcast addresses: active, and not the excluded one. *)
Definition is_recipient (cl : list client) (exclude : Z) (i : nat) : bool :=
  match cl !! i with
  | Some c => active c && negb (Z.of_nat i =? exclude)
  | None => false
  end.

Definition recipients (cl : list client) (exclude : Z) : list nat :=
  List.filter (is_recipient cl exclude) (seq 0 MAX_CLIENTS).

Definition fd_of (cl : list client) (i : nat) : Z :=
  match cl !! i with
  | Some c => fd c
  | None => -1
  end.

Section Server.

Variable E : Env.

Definition sys_write (h : Z) (msg : list ascii) (st : state) : state * Z :=
  let r := env_write E (trace st) h msg in
  (emit (EvWrite h msg r) st, r).

Definition sys_read (h : Z) (max : nat) (st : state) : state * read_outcome :=
  let r := clamp_read max (env_read E (trace st) h) in
  (emit (EvRead h r) st, r).

(** ** init_clients *)

Definition init_client (c : client) : client :=
  mkClient (-1) false (<[0%nat:=NUL]> (name c)) (addr c) (port c).

Definition init_clients (st : state) : state :=
  set_clients (map init_client) st.

(** ** find_empty_slot *)

Fixpoint find_empty_in (ix : list nat) (cl : list client) : Z :=
  match ix with
  | [] => -1
  | i :: ix' =>
      match cl !! i with
      | Some c => if negb (active c) then Z.of_nat i else find_empty_in ix' cl
      | None => find_empty_in ix' cl
      end
  end.

Definition find_empty_slot (st : state) : Z :=
  find_empty_in (seq 0 MAX_CLIENTS) (clients st).

(** ** find_client_by_fd *)

Fixpoint find_fd_in (ix : list nat) (cl : list client) (h : Z) : Z :=
  match ix with
  | [] => -1
  | i :: ix' =>
      match cl !! i with
      | Some c =>
          if active c && (fd c =? h) then Z.of_nat i else find_fd_in ix' cl h
      | None => find_fd_in ix' cl h
      end
  end.

Definition find_client_by_fd (h : Z) (st : state) : Z :=
  find_fd_in (seq 0 MAX_CLIENTS) (clients st) h.

(** ** remove_client *)

Definition released (c : client) : client :=
  mkClient (-1) false (<[0%nat:=NUL]> (name c)) (addr c) (port c).

Definition shown_name (c : client) : list ascii :=
  if Ascii.eqb (nth 0 (name c) NUL) NUL then str "unknown" else cstr (name c).

Definition remove_client (slot : Z) (st : state) : state :=
  if (slot <? 0) || (Z.of_nat MAX_CLIENTS <=? slot) then st
  else
    match clients st !! Z.to_nat slot with
    | None => st
    | Some c =>
        if negb (active c) then st
        else
          let st1 :=
            printf disconnected_fmt
              [PStr (shown_name c); PInt slot; PInt (fd c)] st in
          let st2 := sys_close (fd c) st1 in
          set_num_clients (fun n => n - 1)
            (set_clients (fun cl => <[Z.to_nat slot:=released c]> cl) st2)
    end.

(** ** broadcast_message *)

Definition broadcast_one (msg : list ascii) (sender_slot : Z) (i : nat)
    (st : state) : state :=
  match clients st !! i with
  | Some c =>
      if active c && negb (Z.of_nat i =? sender_slot) then
        let '(st1, sent) := sys_write (fd c) msg st in
        if sent <? 0
        then printf failed_to_send [PInt (Z.of_nat i)] st1
        else st1
      else st
  | None => st
  end.

Fixpoint broadcast_loop (ix : list nat) (msg : list ascii) (sender_slot : Z)
    (st : state) : state :=
  match ix with
  | [] => st
  | i :: ix' =>
      broadcast_loop ix' msg sender_slot (broadcast_one msg sender_slot i st)
  end.

Definition broadcast_message (msg : list ascii) (sender_slot : Z)
    (st : state) : state :=
  broadcast_loop (seq 0 MAX_CLIENTS) msg sender_slot st.


(** ** handle_new_connection *)

(** The [do ... while (temp > 0)] loop filling [slot_str]: the decimal
    digits of [temp], least significant first.  [room] is the space left
    in [slot_str]. *)
Fixpoint slot_digits (room : nat) (temp : Z) : list ascii :=
  match room with
  | O => []
  | S room' =>
      let d := ascii_of_nat (48 + Z.to_nat (Z.rem temp 10)) in
      let temp' := Z.quot temp 10 in
      d :: (if 0 <? temp' then slot_digits room' temp' else [])
  end.

(** The in-place reversal [for (k = 0; k < j / 2; k++)] of [slot_str]. *)
Fixpoint swap_loop (todo k j : nat) (s : list ascii) : list ascii :=
  match todo with
  | O => s
  | S todo' =>
      let c := nth k s NUL in
      let s1 := <[k:=nth (j - 1 - k) s NUL]> s in
      let s2 := <[(j - 1 - k)%nat:=c]> s1 in
      swap_loop todo' (S k) j s2
  end.

Definition reverse_in_place (s : list ascii) : list ascii :=
  swap_loop (length s / 2) 0 (length s) s.

(** The contents of [name_buf] once the digits of [slot_str] and its
    terminator have been appended to "user". *)
Definition name_buf (slot : Z) : list ascii :=
  str "user" ++ reverse_in_place (slot_digits 7 slot) ++ [NUL].

(** The string that [strcpy] reads from [name_buf]. *)
Definition default_name (slot : Z) : list ascii := cstr (name_buf slot).

Definition full_notice : list ascii :=
  str "Server is full. Please try again later." ++ [LF].

Definition welcome_msg (nm : list ascii) : list ascii :=
  str "Welcome to xv6 Chat Server! Your name is: " ++ nm ++ [LF].

Definition join_msg (nm : list ascii) : list ascii :=
  str "*** " ++ nm ++ str " has joined the chat ***" ++ [LF].

Definition leave_msg (nm : list ascii) : list ascii :=
  str "*** " ++ nm ++ str " has left the chat ***" ++ [LF].

Definition handle_new_connection (st : state) : state :=
  let '(client_fd, sin_addr, sin_port) :=
    env_accept E (trace st) (server_sock st) in
  let st0 := emit (EvAccept (server_sock st) client_fd sin_addr sin_port) st in
  if client_fd <? 0 then printf "chatserver: accept failed\n" [] st0
  else
    let slot := find_empty_slot st0 in
    if slot <? 0 then
      let st1 := printf server_full_fmt [] st0 in
      let '(st2, _) := sys_write client_fd full_notice st1 in
      sys_close client_fd st2
    else
      match clients st0 !! Z.to_nat slot with
      | None => st0
      | Some c =>
          let c1 :=
            mkClient client_fd true (strcpy (name c) (default_name slot))
              sin_addr sin_port in
          let st1 :=
            set_num_clients (fun n => n + 1)
              (set_clients (fun cl => <[Z.to_nat slot:=c1]> cl) st0) in
          let st2 :=
            printf connected_fmt [PInt slot; PInt client_fd] st1 in
          let '(st3, _) :=
            sys_write client_fd (welcome_msg (cstr (name c1))) st2 in
          broadcast_message (join_msg (cstr (name c1))) slot st3
      end.

(** ** handle_client_data *)

Definition buf_is (buf : list ascii) (i : nat) (c : ascii) : bool :=
  Ascii.eqb (nth i buf NUL) c.

(** [n > 6 && buf[0] == '/' && ... && buf[5] == ' '] *)
Definition is_name_cmd (n : Z) (buf : list ascii) : bool :=
  (6 <? n) && buf_is buf 0 "/" && buf_is buf 1 "n" && buf_is buf 2 "a"
  && buf_is buf 3 "m" && buf_is buf 4 "e" && buf_is buf 5 " ".

(** [n >= 5 && buf[0] == '/' && ... && buf[4] == 't'] *)
Definition is_list_cmd (n : Z) (buf : list ascii) : bool :=
  (5 <=? n) && buf_is buf 0 "/" && buf_is buf 1 "l" && buf_is buf 2 "i"
  && buf_is buf 3 "s" && buf_is buf 4 "t".

(** The loop extracting the new name: [src] is [buf] from index [i] up to
    [n], [nm] the name field and [new_len] the next index written. *)
Fixpoint copy_name (src : list ascii) (nm : list ascii) (new_len : nat)
    : list ascii * nat :=
  match src with
  | [] => (nm, new_len)
  | c :: src' =>
      if negb (Ascii.eqb c LF) && negb (Ascii.eqb c CR) && (new_len <? 31)%nat
      then copy_name src' (<[new_len:=c]> nm) (S new_len)
      else (nm, new_len)
  end.

Definition rename_field (buf : list ascii) (nm : list ascii) : list ascii :=
  let '(nm1, new_len) := copy_name (drop 6 buf) nm 0 in
  <[new_len:=NUL]> nm1.

Definition rename_msg (old_name new_name : list ascii) : list ascii :=
  str "*** " ++ old_name ++ str " is now known as " ++ new_name
  ++ [" "; "*"; "*"; "*"; LF]%char.

(** One row of the listing. *)
Definition list_row (slot i : nat) (c : client) : list ascii :=
  [" "; "-"; " "]%char ++ cstr (name c)
  ++ (if (i =? slot)%nat then str " (you)" else []) ++ [LF].

(** The bytes that the code stores into [char list_msg[512]], in index
    order: the k-th element is stored at [list_msg[k]], so the length is
    the final value of [llen], the index at which the terminating NUL is
    stored.  The list is not cut at the size of the array: it gives the
    index of every store, in bounds or not.  It is the content of the
    array, and the reply that is written, as long as that last index is
    below [LIST_MSG_SIZE]; beyond that the stores leave the array and C
    defines neither the content nor the reply. *)
Fixpoint list_loop (ix : list nat) (slot : nat) (cl : list client)
    (msg : list ascii) : list ascii :=
  match ix with
  | [] => msg
  | i :: ix' =>
      match cl !! i with
      | Some c =>
          if active c then list_loop ix' slot cl (msg ++ list_row slot i c)
          else list_loop ix' slot cl msg
      | None => list_loop ix' slot cl msg
      end
  end.

Definition build_list_msg (cl : list client) (slot : nat) : list ascii :=
  list_loop (seq 0 MAX_CLIENTS) slot cl (str "Connected users:" ++ [LF]).

(** The largest index of [list_msg] written while answering /list: the
    index [llen] of the terminating NUL. *)
Definition list_msg_last_index (cl : list client) (slot : nat) : nat :=
  length (build_list_msg cl slot).

Definition chat_line (nm : list ascii) (buf : list ascii) : list ascii :=
  ["["]%char ++ nm ++ ["]"; " "]%char ++ buf
  ++ (if Ascii.eqb (nth (length buf - 1) buf NUL) LF then [] else [LF]).

Definition handle_client_data (slot : nat) (st : state) : state :=
  match clients st !! slot with
  | None => st
  | Some c =>
      let '(st0, r) := sys_read (fd c) (Z.to_nat (BUF_SIZE - 1)) st in
      let n := read_ret r in
      let buf := read_buf r in
      if n <=? 0 then
        let msg := leave_msg (cstr (name c)) in
        let st1 := remove_client (Z.of_nat slot) st0 in
        broadcast_message msg (Z.of_nat slot) st1
      else if is_name_cmd n buf then
        let old_name := cstr (name c) in
        let c1 :=
          mkClient (fd c) (active c) (rename_field buf (name c))
            (addr c) (port c) in
        let st1 := set_clients (fun cl => <[slot:=c1]> cl) st0 in
        broadcast_message (rename_msg old_name (cstr (name c1))) (-1) st1
      else if is_list_cmd n buf then
        fst (sys_write (fd c) (build_list_msg (clients st0) slot) st0)
      else
        let line := chat_line (cstr (name c)) buf in
        let st1 := printf "chatserver: %s" [PStr (cstr line)] st0 in
        broadcast_message line (Z.of_nat slot) st1
  end.

(** ** build_poll_array *)

Fixpoint poll_entries (ix : list nat) (cl : list client) : list pollfd :=
  match ix with
  | [] => []
  | i :: ix' =>
      match cl !! i with
      | Some c =>
          if active c then mkPollfd (fd c) POLLIN 0 :: poll_entries ix' cl
          else poll_entries ix' cl
      | None => poll_entries ix' cl
      end
  end.

Definition build_poll_array (st : state) : list pollfd :=
  mkPollfd (server_sock st) POLLIN 0
  :: poll_entries (seq 0 MAX_CLIENTS) (clients st).

(** ** main *)

Definition has_flag (rev mask : Z) : bool := negb (Z.land rev mask =? 0).

(** The array after [net_poll] has filled in the result masks. *)
Fixpoint set_revents (fds : list pollfd) (revs : list Z) : list pollfd :=
  match fds with
  | [] => []
  | p :: fds' =>
      mkPollfd (pfd p) (events p) (nth 0 revs 0)
      :: set_revents fds' (tail revs)
  end.

(** The inner search [for (j = idx; j < nfds; j++)] for the entry with
    the client's descriptor; [fds] is the array from index [idx]. *)
Fixpoint find_entry (fds : list pollfd) (h : Z) : option pollfd :=
  match fds with
  | [] => None
  | p :: fds' => if pfd p =? h then Some p else find_entry fds' h
  end.

(** The hang-up branch of the client loop. *)
Definition client_hangup (i : nat) (st : state) : state :=
  match clients st !! i with
  | None => st
  | Some c =>
      let msg := leave_msg (cstr (name c)) in
      let st1 := remove_client (Z.of_nat i) st in
      broadcast_message msg (-1) st1
  end.

(** What the client loop does with the entry found for slot [i]. *)
Definition dispatch_entry (p : pollfd) (i : nat) (st : state) : state :=
  let st1 :=
    if has_flag (revents p) POLLIN then handle_client_data i st else st in
  if has_flag (revents p) (Z.lor POLLERR POLLHUP) then client_hangup i st1
  else st1.

Fixpoint client_loop (ix : list nat) (fds : list pollfd) (idx : nat)
    (st : state) : state :=
  match ix with
  | [] => st
  | i :: ix' =>
      if negb (idx <? length fds)%nat then st
      else
        match clients st !! i with
        | None => st
        | Some c =>
            if negb (active c) then client_loop ix' fds idx st
            else
              match find_entry (drop idx fds) (fd c) with
              | Some p => client_loop ix' fds (S idx) (dispatch_entry p i st)
              | None => client_loop ix' fds idx st
              end
        end
  end.

(** One turn of the [while (1)] loop; the flag tells whether the loop goes
    on ([false] after [break]). *)
Definition cycle (st : state) : state * bool :=
  let fds := build_poll_array st in
  let '(ready, revs) := env_poll E (trace st) fds in
  let st0 := emit (EvPoll fds ready revs) st in
  let fds' := set_revents fds revs in
  if ready <? 0 then (printf "chatserver: poll error\n" [] st0, true)
  else if ready =? 0 then (st0, true)
  else
    let r0 := nth 0 (map revents fds') 0 in
    let st1 := if has_flag r0 POLLIN then handle_new_connection st0 else st0 in
    if has_flag r0 (Z.lor POLLERR POLLHUP)
    then (printf "chatserver: server socket error\n" [] st1, false)
    else (client_loop (seq 0 MAX_CLIENTS) fds' 1 st1, true).

(** The zero-initialised statics. *)
Definition static_client : client :=
  mkClient 0 false (replicate NAME_SIZE NUL) 0 0.

Definition static_state : state :=
  mkState (replicate MAX_CLIENTS static_client) (-1) 0 [].

(** [main] up to the event loop: [inl] is the state at the first turn of
    the loop, [inr] the state at [exit(1)]. *)
Definition startup : state + state :=
  let st := printf "===========================================\n" [] static_state in
  let st := printf "   xv6 Event-Driven Multiclient Chat Server\n" [] st in
  let st := printf "===========================================\n" [] st in
  let st := init_clients st in
  let st := emit (EvInetaddress (str "0.0.0.0")) st in
  let st :=
    printf "chatserver: binding to %s:%d\n"
      [PStr (str "0.0.0.0"); PInt SERVER_PORT] st in
  let sock := env_socket E (trace st) in
  let st := emit (EvSocket sock) st in
  let st := mkState (clients st) sock (num_clients st) (trace st) in
  if sock <? 0 then
    inr (emit (EvExit 1) (printf "chatserver: failed to create socket\n" [] st))
  else
    let b := env_bind E (trace st) sock in
    let st := emit (EvBind sock b) st in
    if b <? 0 then
      inr (emit (EvExit 1)
             (sys_close sock (printf "chatserver: failed to bind\n" [] st)))
    else
      let l := env_listen E (trace st) sock in
      let st := emit (EvListen sock (Z.of_nat MAX_CLIENTS) l) st in
      if l <? 0 then
        inr (emit (EvExit 1)
               (sys_close sock (printf "chatserver: failed to listen\n" [] st)))
      else
        let st := printf "chatserver: listening for connections...\n" [] st in
        let st :=
          printf "chatserver: commands - /name <newname>, /list\n" [] st in
        inl (printf "-------------------------------------------\n" [] st).

(** The code after the loop. *)
Fixpoint close_active (ix : list nat) (st : state) : state :=
  match ix with
  | [] => st
  | i :: ix' =>
      match clients st !! i with
      | Some c =>
          close_active ix' (if active c then sys_close (fd c) st else st)
      | None => close_active ix' st
      end
  end.

Definition cleanup (st : state) : state :=
  let st := printf "chatserver: shutting down...\n" [] st in
  let st := close_active (seq 0 MAX_CLIENTS) st in
  emit (EvExit 0) (sys_close (server_sock st) st).

(** [main], observed for at most [turns] turns of the event loop: the
    state at [exit] if the program has got there, [None] if it is still
    in the loop. *)
Fixpoint event_loop (turns : nat) (st : state) : option state :=
  match turns with
  | O => None
  | S k =>
      match cycle st with
      | (st', true) => event_loop k st'
      | (st', false) => Some (cleanup st')
      end
  end.

Definition main (turns : nat) : option state :=
  match startup with
  | inl st => event_loop turns st
  | inr st => Some st
  end.

(** [turns] turns of the event loop; [None] once the loop has been left. *)
Fixpoint run (turns : nat) (st : state) : option state :=
  match turns with
  | O => Some st
  | S k =>
      match cycle st with
      | (st', true) => run k st'
      | (_, false) => None
      end
  end.

(** The states at the head of the event loop. *)
Inductive reachable : state -> Prop :=
| reach_start st : startup = inl st -> reachable st
| reach_cycle st st' : reachable st -> cycle st = (st', true) -> reachable st'.

End Server.

(** ** Specification-side definitions *)

(** The remainder of a rename line: what follows the six bytes of the
    command token and its space, cut at the first line terminator and
    bounded to 31 bytes. *)
Fixpoint until_terminator (s : list ascii) : list ascii :=
  match s with
  | [] => []
  | c :: s' =>
      if Ascii.eqb c LF || Ascii.eqb c CR then [] else c :: until_terminator s'
  end.

Definition name_argument (buf : list ascii) : list ascii :=
  take 31 (until_terminator (drop 6 buf)).

(** What the read of [handle_client_data] on session [c] delivers. *)
Definition incoming (E : Env) (st : state) (c : client) : read_outcome :=
  clamp_read (Z.to_nat (BUF_SIZE - 1)) (env_read E (trace st) (fd c)).

(** A name field is a full array holding a terminated string. *)
Definition name_ok (c : client) : Prop :=
  length (name c) = NAME_SIZE /\ (length (cstr (name c)) < NAME_SIZE)%nat.

(** The registry has its [MAX_CLIENTS] entries, all with terminated names,
    and the program has issued no [fcntl]. *)
Definition Inv (st : state) : Prop :=
  length (clients st) = MAX_CLIENTS
  /\ Forall name_ok (clients st)
  /\ Forall (fun e => is_fcntl e = false) (trace st).

Definition all_active (cl : list client) : Prop :=
  Forall (fun c => active c = true) cl.

(** The result mask [net_poll] reports for the listening socket. *)
Definition listener_revents (E : Env) (st : state) : Z :=
  nth 0 (snd (env_poll E (trace st) (build_poll_array st))) 0.

(** ** Scripted environments, for concrete runs *)

(** What the environment answers during one turn of the event loop. *)
Record turn := mkTurn {
  t_revents : list Z;
  t_accept : Z * Z * Z;
  t_read : Z -> read_outcome;
  t_write : Z -> list ascii -> Z
}.

Fixpoint polls_in (tr : list event) : nat :=
  match tr with
  | [] => O
  | EvPoll _ _ _ :: tr' => S (polls_in tr')
  | _ :: tr' => polls_in tr'
  end.

Definition current_turn (sc : list turn) (tr : list event) : option turn :=
  sc !! (polls_in tr - 1)%nat.

Definition write_all (h : Z) (msg : list ascii) : Z := Z.of_nat (length msg).

Definition scripted (sc : list turn) : Env :=
  mkEnv (fun _ => 3) (fun _ _ => 0) (fun _ _ => 0)
    (fun tr _ =>
       match sc !! polls_in tr with
       | Some t => (1, t_revents t)
       | None => (0, [])
       end)
    (fun tr _ =>
       match current_turn sc tr with
       | Some t => t_accept t
       | None => (-1, 0, 0)
       end)
    (fun tr h =>
       match current_turn sc tr with
       | Some t => t_read t h
       | None => RNotReady
       end)
    (fun tr h msg =>
       match current_turn sc tr with
       | Some t => t_write t h msg
       | None => write_all h msg
       end).

(** A turn in which a connection is accepted on descriptor [h]. *)
Definition accept_turn (h : Z) : turn :=
  mkTurn [POLLIN] (h, 16777343, 4000 + h) (fun _ => RNotReady) write_all.

(** A turn in which the [k]-th polled session reports [rev] and a read
    delivers [r]. *)
Definition session_turn (k : nat) (rev : Z) (r : read_outcome) : turn :=
  mkTurn (0 :: replicate k 0 ++ [rev]) (-1, 0, 0) (fun _ => r) write_all.

Definition run_from_start (E : Env) (turns : nat) : option state :=
  match startup E with
  | inl st => run E turns st
  | inr _ => None
  end.

(** A registry with the given sessions in its first slots. *)
Definition free_client : client :=
  mkClient (-1) false (replicate NAME_SIZE NUL) 0 0.

Definition session (h : Z) (nm : string) : client :=
  mkClient h true (strcpy (replicate NAME_SIZE NUL) (str nm)) 16777343 (4000 + h).

Definition registry (cl : list client) : state :=
  mkState (cl ++ replicate (MAX_CLIENTS - length cl) free_client) 3
    (Z.of_nat (length cl)) [].

(** Two sessions, [user0] on descriptor 4 and [user1] on descriptor 5. *)
Definition two_sessions : state :=
  registry [session 4 "user0"; session 5 "user1"].

(** All fourteen slots taken. *)
Definition full_house : state :=
  registry (map (fun k => session (4 + Z.of_nat k) "guest") (seq 0 MAX_CLIENTS)).

(** An environment whose writes to descriptor [bad] fail. *)
Definition failing_write (bad : Z) : Env :=
  scripted [mkTurn [] (-1, 0, 0) (fun _ => RNotReady)
              (fun h msg => if h =? bad then -1 else write_all h msg)].

(** An environment answering one read and one accept. *)
Definition one_shot (r : read_outcome) (acc : Z * Z * Z) : Env :=
  scripted [mkTurn [] acc (fun _ => r) write_all].

(** The state at the head of the event loop after [turns] turns. *)
Definition state_after (E : Env) (turns : nat) : state :=
  match run_from_start E turns with
  | Some st => st
  | None => static_state
  end.

(** One connection is accepted on descriptor 4. *)
Definition one_accept_env : Env := scripted [accept_turn 4].

(** A connection is accepted, then sends the rename token, a space and a
    line feed. *)
Definition empty_rename_env : Env :=
  scripted [accept_turn 4;
            session_turn 0 POLLIN (RData (str "/name " ++ [LF]))].

(** Fourteen connections are accepted; each of them takes a nickname of
    31 characters; the first one then asks for the listing. *)
Definition long_name : list ascii := replicate 31 "a"%char.

Definition crowded_env : Env :=
  scripted
    (map (fun k => accept_turn (4 + Z.of_nat k)) (seq 0 MAX_CLIENTS)
     ++ map (fun k =>
               session_turn k POLLIN (RData (str "/name " ++ long_name ++ [LF])))
          (seq 0 MAX_CLIENTS)
     ++ [session_turn 0 POLLIN (RData (str "/list" ++ [LF]))]).

(** ** Further definitions used in the statements *)

(** The number of active slots. *)
Definition count_active (cl : list client) : nat :=
  length (List.filter active cl).

(** The descriptors of the active slots, in slot order. *)
Definition active_fds (cl : list client) : list Z :=
  map fd (List.filter active cl).

(** An active slot holds a descriptor; a free slot holds -1 and the empty
    nickname. *)
Definition slot_ok (c : client) : Prop :=
  if active c then 0 <= fd c else fd c = -1 /\ cstr (name c) = [].

(** The registry and the session counter agree. *)
Definition Consistent (st : state) : Prop :=
  length (clients st) = MAX_CLIENTS
  /\ num_clients st = Z.of_nat (count_active (clients st))
  /\ Forall slot_ok (clients st).

(** Decimal digits and the number they write. *)
Definition is_digit (c : ascii) : bool :=
  (48 <=? nat_of_ascii c)%nat && (nat_of_ascii c <=? 57)%nat.

Definition digit_value (c : ascii) : Z := Z.of_nat (nat_of_ascii c) - 48.

Fixpoint decimal_value (acc : Z) (s : list ascii) : Z :=
  match s with
  | [] => acc
  | c :: s' => decimal_value (acc * 10 + digit_value c) s'
  end.

(** Sizes of the stack buffers: [welcome], [join_msg], [leave_msg] and
    [name_msg] have 128 bytes, [broadcast] has [BUF_SIZE + 64], and the
    poll array has [MAX_CLIENTS + 1] entries. *)
Definition ANNOUNCE_SIZE : nat := 128.
Definition BROADCAST_SIZE : nat := Z.to_nat (BUF_SIZE + 64).
Definition POLL_SIZE : nat := S MAX_CLIENTS.

(** The rows of a listing for the requester [slot], for the registry
    entries from index [i] on. *)
Fixpoint listing_rows (i slot : nat) (cl : list client) : list ascii :=
  match cl with
  | [] => []
  | c :: cl' =>
      (if active c then list_row slot i c else [])
      ++ listing_rows (S i) slot cl'
  end.

(** The total length of the nicknames of the active sessions. *)
Fixpoint active_name_bytes (cl : list client) : nat :=
  match cl with
  | [] => O
  | c :: cl' =>
      ((if active c then length (cstr (name c)) else 0)
       + active_name_bytes cl')%nat
  end.

(** An environment answering every poll with the given result. *)
Definition poll_env (ready : Z) (revs : list Z) : Env :=
  mkEnv (fun _ => 3) (fun _ _ => 0) (fun _ _ => 0)
    (fun _ _ => (ready, revs)) (fun _ _ => (-1, 0, 0))
    (fun _ _ => RNotReady) (fun _ => write_all).

(** An environment whose socket, bind and listen calls return the given
    values. *)
Definition boot_env (sock b l : Z) : Env :=
  mkEnv (fun _ => sock) (fun _ _ => b) (fun _ _ => l)
    (fun _ _ => (0, [])) (fun _ _ => (-1, 0, 0))
    (fun _ _ => RNotReady) (fun _ => write_all).

(** One more connection knocks, on descriptor 18. *)
Definition knock_env : Env := scripted [accept_turn 18].

(** Fourteen connections are accepted on descriptors 4 to 17; in the next
    turn the listening socket reports both a pending connection, accepted
    on descriptor 18, and a hang-up. *)
Definition overfull_env : Env :=
  scripted
    (map (fun k => accept_turn (4 + Z.of_nat k)) (seq 0 MAX_CLIENTS)
     ++ [mkTurn [Z.lor POLLIN POLLHUP] (18, 16777343, 4018)
           (fun _ => REof) write_all]).

(** Two connections are accepted on descriptors 4 and 5; then the poll
    reports the first one readable and hung up, and its read returns end
    of file. *)
Definition eof_hangup_env : Env :=
  scripted [accept_turn 4; accept_turn 5;
            session_turn 0 (Z.lor POLLIN POLLHUP) REof].

(** The events of the trace of [st'] that follow those of [st]. *)
Definition events_since (st st' : state) : list event :=
  drop (length (trace st)) (trace st').

(** ** The kernel's read on a blocking handle *)





(** * Properties *)

(** ** C strings and name fields *)

Lemma store_at_length s : forall dst k, length (store_at dst k s) = length dst.
Proof.
  induction s as [|c s IH]; intros dst k; simpl; [reflexivity|].
  rewrite IH. apply length_insert.
Qed.

Lemma store_at_spec s : forall dst k,
  (k + length s <= length dst)%nat ->
  store_at dst k s = take k dst ++ s ++ drop (k + length s) dst.
Proof.
  induction s as [|c s IH]; intros dst k Hlen; simpl in *.
  - rewrite Nat.add_0_r. symmetry. apply take_drop.
  - rewrite IH by (rewrite length_insert; lia).
    rewrite (take_S_r _ k c) by (apply list_lookup_insert_eq; lia).
    rewrite take_insert_ge by lia.
    rewrite drop_insert_lt by lia.
    rewrite <- app_assoc. simpl.
    replace (S (k + length s)) with (k + S (length s))%nat by lia.
    reflexivity.
Qed.

Lemma cstr_app_NUL s r : cstr (s ++ NUL :: r) = cstr s.
Proof.
  induction s as [|c s IH]; simpl; [reflexivity|].
  destruct (Ascii.eqb c NUL); [reflexivity|]. now rewrite IH.
Qed.

Lemma cstr_length_le a : (length (cstr a) <= length a)%nat.
Proof.
  induction a as [|c a IH]; simpl; [lia|].
  destruct (Ascii.eqb c NUL); simpl; lia.
Qed.

Lemma cstr_no_NUL s : Forall (fun c => c <> NUL) s -> cstr s = s.
Proof.
  induction 1 as [|c s Hc _ IH]; simpl; [reflexivity|].
  destruct (Ascii.eqb_spec c NUL) as [->|_]; [contradiction|]. now rewrite IH.
Qed.

Lemma cstr_cstr a : cstr (cstr a) = cstr a.
Proof.
  induction a as [|c a IH]; simpl; [reflexivity|].
  destruct (Ascii.eqb c NUL) eqn:Hc; simpl; [reflexivity|].
  now rewrite Hc, IH.
Qed.

Lemma cstr_nil_iff a :
  cstr a = [] <-> a = [] \/ exists r, a = NUL :: r.
Proof.
  destruct a as [|c a]; simpl.
  - split; auto.
  - destruct (Ascii.eqb_spec c NUL) as [->|Hc]; split; intros H.
    + right. eauto.
    + reflexivity.
    + discriminate.
    + destruct H as [H|[r H]]; [discriminate|]. congruence.
Qed.

Lemma strcpy_spec dst s :
  (length s < length dst)%nat ->
  strcpy dst s = s ++ NUL :: drop (S (length s)) dst.
Proof.
  intros Hlen. unfold strcpy.
  rewrite store_at_spec by (rewrite length_app; simpl; lia).
  rewrite take_0, length_app. simpl. rewrite <- app_assoc. simpl.
  replace (length s + 1)%nat with (S (length s)) by lia. reflexivity.
Qed.

Lemma strcpy_length dst s : length (strcpy dst s) = length dst.
Proof. apply store_at_length. Qed.

Lemma cstr_strcpy dst s :
  (length s < length dst)%nat -> cstr (strcpy dst s) = cstr s.
Proof. intros H. rewrite strcpy_spec by exact H. apply cstr_app_NUL. Qed.

Lemma until_terminator_length s :
  (length (until_terminator s) <= length s)%nat.
Proof.
  induction s as [|c s IH]; simpl; [lia|].
  destruct (Ascii.eqb c LF || Ascii.eqb c CR); simpl; lia.
Qed.

Lemma name_argument_length buf : (length (name_argument buf) <= 31)%nat.
Proof. unfold name_argument. rewrite length_take. lia. Qed.

Lemma copy_name_spec src : forall nm k,
  (k <= 31)%nat ->
  copy_name src nm k =
  (store_at nm k (take (31 - k) (until_terminator src)),
   (k + length (take (31 - k) (until_terminator src)))%nat).
Proof.
  induction src as [|c src IH]; intros nm k Hk; simpl.
  - rewrite take_nil. simpl. now rewrite Nat.add_0_r.
  - destruct (Ascii.eqb c LF); simpl.
    { rewrite take_nil. simpl. now rewrite Nat.add_0_r. }
    destruct (Ascii.eqb c CR); simpl.
    { rewrite take_nil. simpl. now rewrite Nat.add_0_r. }
    destruct (Nat.ltb_spec k 31) as [Hlt|Hge].
    + rewrite IH by lia.
      replace (31 - k)%nat with (S (31 - S k)) by lia. simpl.
      f_equal. lia.
    + replace (31 - k)%nat with 0%nat by lia. simpl. now rewrite Nat.add_0_r.
Qed.


Lemma rename_field_spec buf nm :
  length nm = NAME_SIZE ->
  rename_field buf nm =
  name_argument buf ++ NUL :: drop (S (length (name_argument buf))) nm.
Proof.
  intros Hnm. unfold rename_field.
  rewrite copy_name_spec by lia.
  change (take (31 - 0) (until_terminator (drop 6 buf))) with (name_argument buf).
  pose proof (name_argument_length buf) as Hw.
  unfold NAME_SIZE in Hnm.
  rewrite store_at_spec by (simpl; lia).
  rewrite take_0. simpl.
  set (w := name_argument buf) in *.
  replace (length w) with (length w + 0)%nat at 1 by lia.
  rewrite insert_app_r.
  destruct (drop (length w) nm) as [|x r] eqn:Hd.
  - apply (f_equal length) in Hd. rewrite length_drop in Hd. simpl in Hd. lia.
  - simpl. do 2 f_equal.
    change r with (drop 1 (x :: r)). rewrite <- Hd, drop_drop.
    f_equal. lia.
Qed.

Lemma rename_field_length buf nm :
  length (rename_field buf nm) = length nm.
Proof.
  unfold rename_field. rewrite copy_name_spec by lia.
  rewrite length_insert. apply store_at_length.
Qed.

Lemma cstr_rename_field buf nm :
  length nm = NAME_SIZE ->
  cstr (rename_field buf nm) = cstr (name_argument buf).
Proof. intros H. rewrite rename_field_spec by exact H. apply cstr_app_NUL. Qed.


(** ** Traces *)

Lemma writes_of_app a b : writes_of (a ++ b) = writes_of a ++ writes_of b.
Proof.
  induction a as [|e a IH]; simpl; [reflexivity|].
  destruct e; simpl; now rewrite ?IH.
Qed.

Lemma closes_of_app a b : closes_of (a ++ b) = closes_of a ++ closes_of b.
Proof.
  induction a as [|e a IH]; simpl; [reflexivity|].
  destruct e; simpl; now rewrite ?IH.
Qed.

Lemma reads_of_app a b : reads_of (a ++ b) = reads_of a ++ reads_of b.
Proof.
  induction a as [|e a IH]; simpl; [reflexivity|].
  destruct e; simpl; now rewrite ?IH.
Qed.

Lemma printfs_of_app a b : printfs_of (a ++ b) = printfs_of a ++ printfs_of b.
Proof.
  induction a as [|e a IH]; simpl; [reflexivity|].
  destruct e; simpl; now rewrite ?IH.
Qed.

Lemma failed_writes_app a b :
  failed_writes (a ++ b) = (failed_writes a + failed_writes b)%nat.
Proof.
  induction a as [|e a IH]; simpl; [reflexivity|].
  destruct e; simpl; rewrite ?IH; try reflexivity.
  destruct (ret <? 0); simpl; lia.
Qed.

Lemma bcast_only_no_close D :
  Forall (fun e => bcast_event e = true) D -> closes_of D = [].
Proof.
  induction 1 as [|e D He _ IH]; simpl; [reflexivity|].
  destruct e; simpl in *; try discriminate; exact IH.
Qed.

Lemma bcast_only_no_read D :
  Forall (fun e => bcast_event e = true) D -> reads_of D = [].
Proof.
  induction 1 as [|e D He _ IH]; simpl; [reflexivity|].
  destruct e; simpl in *; try discriminate; exact IH.
Qed.

Lemma bcast_only_no_fcntl D :
  Forall (fun e => bcast_event e = true) D ->
  Forall (fun e => is_fcntl e = false) D.
Proof.
  intros H. eapply Forall_impl; [exact H|].
  intros e He. destruct e; simpl in *; congruence.
Qed.

(** ** broadcast_message *)

Lemma broadcast_one_spec E msg ex i st :
  exists D,
    broadcast_one E msg ex i st =
      mkState (clients st) (server_sock st) (num_clients st) (trace st ++ D)
    /\ writes_of D =
         (if is_recipient (clients st) ex i
          then [(fd_of (clients st) i, msg)] else [])
    /\ Forall (fun e => bcast_event e = true) D
    /\ Forall (fun p => fst p = failed_to_send) (printfs_of D)
    /\ length (printfs_of D) = failed_writes D.
Proof.
  unfold broadcast_one, is_recipient, fd_of.
  destruct (clients st !! i) as [c|] eqn:Hc.
  - destruct (active c && negb (Z.of_nat i =? ex)) eqn:Hr.
    + unfold sys_write. simpl.
      destruct (env_write E (trace st) (fd c) msg <? 0) eqn:Hsent.
      * exists [EvWrite (fd c) msg (env_write E (trace st) (fd c) msg);
                EvPrintf failed_to_send [PInt (Z.of_nat i)]].
        unfold printf, emit. simpl. rewrite <- app_assoc, Hsent. simpl.
        repeat split; auto.
      * exists [EvWrite (fd c) msg (env_write E (trace st) (fd c) msg)].
        unfold emit. simpl. rewrite Hsent. repeat split; auto.
    + exists []. rewrite app_nil_r. destruct st; simpl. repeat split; auto.
  - exists []. rewrite app_nil_r. destruct st; simpl. repeat split; auto.
Qed.

Lemma broadcast_loop_spec E msg ex ix : forall st,
  exists D,
    broadcast_loop E ix msg ex st =
      mkState (clients st) (server_sock st) (num_clients st) (trace st ++ D)
    /\ writes_of D =
         map (fun i => (fd_of (clients st) i, msg))
           (List.filter (is_recipient (clients st) ex) ix)
    /\ Forall (fun e => bcast_event e = true) D
    /\ Forall (fun p => fst p = failed_to_send) (printfs_of D)
    /\ length (printfs_of D) = failed_writes D.
Proof.
  induction ix as [|i ix IH]; intros st; simpl.
  - exists []. rewrite app_nil_r. destruct st; simpl. repeat split; auto.
  - destruct (broadcast_one_spec E msg ex i st) as (D1 & -> & W1 & B1 & P1 & F1).
    destruct (IH (mkState (clients st) (server_sock st) (num_clients st)
                    (trace st ++ D1))) as (D2 & -> & W2 & B2 & P2 & F2).
    simpl in *. exists (D1 ++ D2). rewrite app_assoc.
    split; [reflexivity|].
    rewrite writes_of_app, printfs_of_app, failed_writes_app, length_app, W1, W2.
    repeat split.
    + destruct (is_recipient (clients st) ex i); reflexivity.
    + apply Forall_app; auto.
    + apply Forall_app; auto.
    + lia.
Qed.

Lemma recipients_spec cl ex i :
  In i (recipients cl ex) <->
  (i < MAX_CLIENTS)%nat
  /\ exists c, cl !! i = Some c /\ active c = true /\ Z.of_nat i <> ex.
Proof.
  unfold recipients. rewrite filter_In, in_seq. unfold is_recipient.
  split.
  - intros [Hi Hr]. split; [lia|].
    destruct (cl !! i) as [c|]; [|discriminate].
    exists c. apply andb_true_iff in Hr as [Ha Hn].
    apply negb_true_iff, Z.eqb_neq in Hn. auto.
  - intros [Hi (c & -> & Ha & Hn)]. split; [lia|].
    rewrite Ha. simpl. now apply negb_true_iff, Z.eqb_neq.
Qed.

Lemma recipients_NoDup cl ex : List.NoDup (recipients cl ex).
Proof. apply List.NoDup_filter, List.seq_NoDup. Qed.

Lemma broadcast_message_spec E msg ex st :
  exists D,
    broadcast_message E msg ex st =
      mkState (clients st) (server_sock st) (num_clients st) (trace st ++ D)
    /\ writes_of D =
         map (fun i => (fd_of (clients st) i, msg)) (recipients (clients st) ex)
    /\ Forall (fun e => bcast_event e = true) D
    /\ Forall (fun p => fst p = failed_to_send) (printfs_of D)
    /\ length (printfs_of D) = failed_writes D.
Proof. apply broadcast_loop_spec. Qed.

(** Replaces a broadcast in the goal by the state it yields. *)
Ltac split_broadcast E D W B P :=
  match goal with
  | |- context [broadcast_message E ?m ?x ?s] =>
      destruct (broadcast_message_spec E m x s) as (D & -> & W & B & P & _)
  end.


(** ** remove_client *)

Lemma remove_client_active slot st c :
  0 <= slot < Z.of_nat MAX_CLIENTS ->
  clients st !! Z.to_nat slot = Some c ->
  active c = true ->
  remove_client slot st =
    mkState (<[Z.to_nat slot:=released c]> (clients st)) (server_sock st)
      (num_clients st - 1)
      (trace st ++ [EvPrintf disconnected_fmt
                      [PStr (shown_name c); PInt slot; PInt (fd c)];
                    EvClose (fd c)]).
Proof.
  intros Hr Hc Ha. unfold remove_client.
  destruct (Z.ltb_spec slot 0); [lia|].
  destruct (Z.leb_spec (Z.of_nat MAX_CLIENTS) slot); [lia|]. simpl.
  rewrite Hc, Ha. simpl.
  unfold set_num_clients, set_clients, sys_close, printf, emit. simpl.
  now rewrite <- app_assoc.
Qed.

Lemma remove_client_noop slot st :
  (slot < 0 \/ Z.of_nat MAX_CLIENTS <= slot
   \/ forall c, clients st !! Z.to_nat slot = Some c -> active c = false) ->
  remove_client slot st = st.
Proof.
  intros H. unfold remove_client.
  destruct (Z.ltb_spec slot 0); [reflexivity|].
  destruct (Z.leb_spec (Z.of_nat MAX_CLIENTS) slot); [reflexivity|]. simpl.
  destruct (clients st !! Z.to_nat slot) as [c|] eqn:Hc; [|reflexivity].
  destruct H as [H|[H|H]]; try lia.
  now rewrite (H c eq_refl).
Qed.

Lemma remove_client_cases slot st :
  remove_client slot st = st
  \/ exists c,
       0 <= slot < Z.of_nat MAX_CLIENTS
       /\ clients st !! Z.to_nat slot = Some c /\ active c = true.
Proof.
  destruct (Z.ltb_spec slot 0); [left; apply remove_client_noop; auto|].
  destruct (Z.leb_spec (Z.of_nat MAX_CLIENTS) slot);
    [left; apply remove_client_noop; auto|].
  destruct (clients st !! Z.to_nat slot) as [c|] eqn:Hc.
  - destruct (active c) eqn:Ha.
    + right. exists c. repeat split; auto; lia.
    + left. apply remove_client_noop. right. right. congruence.
  - left. apply remove_client_noop. right. right. congruence.
Qed.

Lemma released_cstr c : cstr (name (released c)) = [].
Proof.
  simpl. destruct (name c) as [|x r]; simpl; [reflexivity|].
  reflexivity.
Qed.

(** ** The invariant *)

Lemma name_ok_released c : name_ok c -> name_ok (released c).
Proof.
  intros [Hl Hc]. split.
  - simpl. now rewrite length_insert.
  - rewrite released_cstr. unfold NAME_SIZE. simpl. lia.
Qed.

Lemma Inv_emit e st : is_fcntl e = false -> Inv st -> Inv (emit e st).
Proof.
  intros He (Hl & Hn & Ht). repeat split; simpl; auto.
  apply Forall_app; auto.
Qed.

Lemma Inv_append st D :
  Inv st -> Forall (fun e => is_fcntl e = false) D ->
  Inv (mkState (clients st) (server_sock st) (num_clients st) (trace st ++ D)).
Proof.
  intros (Hl & Hn & Ht) HD. repeat split; simpl; auto.
  apply Forall_app; auto.
Qed.

Lemma Inv_set_slot i c f st :
  Inv st -> name_ok c ->
  Inv (set_num_clients f (set_clients (fun cl => <[i:=c]> cl) st)).
Proof.
  intros (Hl & Hn & Ht) Hc. repeat split; simpl; auto.
  - now rewrite length_insert.
  - now apply Forall_insert.
Qed.

Lemma Inv_lookup st i c : Inv st -> clients st !! i = Some c -> name_ok c.
Proof.
  intros (_ & Hn & _) Hc. rewrite Forall_lookup in Hn. eapply Hn; eauto.
Qed.

Lemma Inv_broadcast E msg ex st : Inv st -> Inv (broadcast_message E msg ex st).
Proof.
  intros H. destruct (broadcast_message_spec E msg ex st) as (D & -> & _ & B & _).
  apply Inv_append; auto. now apply bcast_only_no_fcntl.
Qed.

Lemma Inv_remove_client slot st : Inv st -> Inv (remove_client slot st).
Proof.
  intros H. destruct (remove_client_cases slot st) as [->|(c & Hr & Hc & Ha)];
    [exact H|].
  rewrite (remove_client_active slot st c) by assumption.
  pose proof (Inv_lookup _ _ _ H Hc) as Hok.
  destruct H as (Hl & Hn & Ht). repeat split; simpl.
  - now rewrite length_insert.
  - apply Forall_insert; auto. now apply name_ok_released.
  - apply Forall_app; split; auto.
Qed.


(** ** find_empty_slot *)

Lemma find_empty_in_spec cl n : forall a,
  (find_empty_in (seq a n) cl = -1
   /\ forall i c, (a <= i < a + n)%nat -> cl !! i = Some c -> active c = true)
  \/ exists k c,
       find_empty_in (seq a n) cl = Z.of_nat k
       /\ (a <= k < a + n)%nat /\ cl !! k = Some c /\ active c = false
       /\ forall i c', (a <= i < k)%nat -> cl !! i = Some c' -> active c' = true.
Proof.
  induction n as [|n IH]; intros a; simpl.
  - left. split; [reflexivity|]. intros; lia.
  - assert (forall b : bool,
             (forall c, cl !! a = Some c -> active c = b) ->
             b = true \/ cl !! a = None ->
             (find_empty_in (seq (S a) n) cl = -1
              /\ forall i c, (a <= i < a + S n)%nat -> cl !! i = Some c ->
                 active c = true)
             \/ exists k c,
                  find_empty_in (seq (S a) n) cl = Z.of_nat k
                  /\ (a <= k < a + S n)%nat /\ cl !! k = Some c
                  /\ active c = false
                  /\ forall i c', (a <= i < k)%nat -> cl !! i = Some c' ->
                     active c' = true) as Hskip.
    { intros b Hb Hcase.
      assert (forall c, cl !! a = Some c -> active c = true) as Ha.
      { intros c Hc. destruct Hcase as [->|Hn]; [auto|congruence]. }
      destruct (IH (S a)) as [[Hf Hall]|(k & c' & Hf & Hk & Hc' & Ha' & Hlow)].
      - left. split; [exact Hf|]. intros i c0 Hi Hi0.
        destruct (decide (i = a)) as [->|Hne]; [auto|].
        apply (Hall i c0); [lia|exact Hi0].
      - right. exists k, c'.
        split; [exact Hf|]. split; [lia|]. split; [exact Hc'|].
        split; [exact Ha'|].
        intros i c0 Hi Hi0. destruct (decide (i = a)) as [->|Hne]; [auto|].
        apply (Hlow i c0); [lia|exact Hi0]. }
    destruct (cl !! a) as [c|] eqn:Hc.
    + destruct (active c) eqn:Ha; simpl.
      * apply (Hskip true); [intros c0 [= <-]; exact Ha|now left].
      * right. exists a, c.
        split; [reflexivity|]. split; [lia|]. split; [exact Hc|].
        split; [exact Ha|]. intros; lia.
    + apply (Hskip true); [intros c0 [=]|now right].
Qed.

Lemma find_empty_slot_full st :
  length (clients st) = MAX_CLIENTS -> all_active (clients st) ->
  find_empty_slot st = -1.
Proof.
  intros Hl Hall. unfold find_empty_slot.
  destruct (find_empty_in_spec (clients st) MAX_CLIENTS 0%nat)
    as [[Hf _]|(k & c & _ & _ & Hc & Ha & _)]; [exact Hf|].
  unfold all_active in Hall. rewrite Forall_lookup in Hall.
  rewrite (Hall k c Hc) in Ha. discriminate.
Qed.

Lemma find_empty_slot_free st slot c :
  (slot < MAX_CLIENTS)%nat ->
  clients st !! slot = Some c -> active c = false ->
  exists k c',
    find_empty_slot st = Z.of_nat k /\ (k <= slot)%nat
    /\ clients st !! k = Some c' /\ active c' = false
    /\ ((forall i c0, (i < slot)%nat -> clients st !! i = Some c0 ->
         active c0 = true) -> k = slot).
Proof.
  intros Hs Hc Ha. unfold find_empty_slot.
  destruct (find_empty_in_spec (clients st) MAX_CLIENTS 0%nat)
    as [[_ Hall]|(k & c' & Hf & Hk & Hc' & Ha' & Hlow)].
  - rewrite (Hall slot c) in Ha; [discriminate|lia|exact Hc].
  - exists k, c'. assert (k <= slot)%nat as Hle.
    { destruct (Nat.le_gt_cases k slot) as [?|Hgt]; [assumption|].
      rewrite (Hlow slot c) in Ha; [discriminate|lia|exact Hc]. }
    repeat split; auto.
    intros Hbelow. destruct (decide (k = slot)) as [?|Hne]; [assumption|].
    rewrite (Hbelow k c') in Ha'; [discriminate|lia|exact Hc'].
Qed.

(** ** handle_new_connection *)

Lemma slot_digits_length room : forall t, (length (slot_digits room t) <= room)%nat.
Proof.
  induction room as [|room IH]; intros t; simpl; [lia|].
  destruct (0 <? Z.quot t 10); simpl; [|lia].
  specialize (IH (Z.quot t 10)). lia.
Qed.

Lemma swap_loop_length todo : forall k j s, length (swap_loop todo k j s) = length s.
Proof.
  induction todo as [|todo IH]; intros k j s; simpl; [reflexivity|].
  now rewrite IH, !length_insert.
Qed.

Lemma default_name_length slot : (4 <= length (default_name slot) <= 11)%nat.
Proof.
  unfold default_name, name_buf, reverse_in_place.
  change (cstr (str "user" ++ ?x)) with (str "user" ++ cstr x).
  rewrite cstr_app_NUL, length_app.
  pose proof (cstr_length_le
                (swap_loop (length (slot_digits 7 slot) / 2) 0
                   (length (slot_digits 7 slot)) (slot_digits 7 slot))) as H.
  rewrite swap_loop_length in H.
  pose proof (slot_digits_length 7 slot).
  change (length (str "user")) with 4%nat. lia.
Qed.

Lemma default_name_user slot :
  exists digits, default_name slot = str "user" ++ digits.
Proof. eexists. reflexivity. Qed.

Lemma cstr_default_name slot : cstr (default_name slot) = default_name slot.
Proof. apply cstr_cstr. Qed.

Lemma name_ok_default c slot :
  name_ok c ->
  name_ok (mkClient 0 true (strcpy (name c) (default_name slot)) 0 0).
Proof.
  intros [Hl Hc]. pose proof (default_name_length slot) as Hd.
  unfold name_ok. simpl. rewrite strcpy_length. split; [exact Hl|].
  unfold NAME_SIZE in *.
  rewrite cstr_strcpy by lia.
  pose proof (cstr_length_le (default_name slot)). lia.
Qed.

Lemma handle_new_connection_full E st h a p :
  length (clients st) = MAX_CLIENTS ->
  all_active (clients st) ->
  env_accept E (trace st) (server_sock st) = (h, a, p) ->
  0 <= h ->
  exists r,
    handle_new_connection E st =
      mkState (clients st) (server_sock st) (num_clients st)
        (trace st ++ [EvAccept (server_sock st) h a p;
                      EvPrintf server_full_fmt [];
                      EvWrite h full_notice r;
                      EvClose h]).
Proof.
  intros Hl Hall Hacc Hh. unfold handle_new_connection. rewrite Hacc.
  destruct (Z.ltb_spec h 0); [lia|].
  rewrite (find_empty_slot_full (emit _ st)) by assumption. simpl.
  eexists. unfold sys_close, emit. simpl.
  rewrite <- !app_assoc. simpl. reflexivity.
Qed.

Lemma handle_new_connection_accepts E st h a p k c :
  env_accept E (trace st) (server_sock st) = (h, a, p) ->
  0 <= h ->
  find_empty_slot st = Z.of_nat k ->
  clients st !! k = Some c ->
  exists D,
    let c1 := mkClient h true (strcpy (name c) (default_name (Z.of_nat k))) a p in
    handle_new_connection E st =
      mkState (<[k:=c1]> (clients st)) (server_sock st) (num_clients st + 1)
        (trace st ++ [EvAccept (server_sock st) h a p;
                      EvPrintf connected_fmt [PInt (Z.of_nat k); PInt h];
                      EvWrite h (welcome_msg (cstr (name c1)))
                        (env_write E
                           (trace st ++ [EvAccept (server_sock st) h a p;
                              EvPrintf connected_fmt [PInt (Z.of_nat k); PInt h]])
                           h (welcome_msg (cstr (name c1))))] ++ D)
    /\ writes_of D =
         map (fun i => (fd_of (<[k:=c1]> (clients st)) i,
                        join_msg (cstr (name c1))))
           (recipients (<[k:=c1]> (clients st)) (Z.of_nat k))
    /\ Forall (fun e => bcast_event e = true) D.
Proof.
  intros Hacc Hh Hk Hc. unfold handle_new_connection. rewrite Hacc.
  destruct (Z.ltb_spec h 0); [lia|].
  change (find_empty_slot (emit (EvAccept (server_sock st) h a p) st))
    with (find_empty_slot st).
  rewrite Hk. destruct (Z.ltb_spec (Z.of_nat k) 0); [lia|].
  rewrite Nat2Z.id. simpl clients. rewrite Hc.
  unfold sys_write. cbv zeta.
  split_broadcast E D W B P.
  exists D. simpl. rewrite <- !app_assoc. simpl.
  repeat split; auto.
Qed.

Lemma Inv_handle_new_connection E st : Inv st -> Inv (handle_new_connection E st).
Proof.
  intros H. unfold handle_new_connection.
  destruct (env_accept E (trace st) (server_sock st)) as [[h a] p].
  set (st0 := emit (EvAccept (server_sock st) h a p) st).
  assert (Inv st0) as H0 by (apply Inv_emit; auto).
  destruct (h <? 0); [apply Inv_emit; auto|].
  destruct (find_empty_slot st0 <? 0).
  - unfold sys_write. cbv zeta. repeat apply Inv_emit; auto.
  - destruct (clients st0 !! Z.to_nat (find_empty_slot st0)) as [c|] eqn:Hc;
      [|exact H0].
    unfold sys_write. cbv zeta. apply Inv_broadcast.
    repeat apply Inv_emit; auto.
    apply Inv_set_slot; auto.
    pose proof (Inv_lookup _ _ _ H0 Hc) as Hok.
    apply (name_ok_default c (find_empty_slot st0)) in Hok.
    exact Hok.
Qed.


(** ** handle_client_data *)


Lemma recipients_released cl slot c :
  recipients (<[slot:=released c]> cl) (Z.of_nat slot) =
  recipients (<[slot:=released c]> cl) (-1).
Proof.
  unfold recipients. apply filter_ext_in. intros i _. unfold is_recipient.
  destruct (decide (i = slot)) as [->|Hne].
  - destruct (<[slot:=released c]> cl !! slot) as [c'|] eqn:Hc; [|reflexivity].
    apply list_lookup_insert_Some in Hc as [(_ & <- & _)|(Hne & _)];
      [reflexivity|congruence].
  - destruct (<[slot:=released c]> cl !! i) as [c'|]; [|reflexivity].
    f_equal. destruct (Z.eqb_spec (Z.of_nat i) (Z.of_nat slot)); [lia|].
    destruct (Z.eqb_spec (Z.of_nat i) (-1)); [lia|]. reflexivity.
Qed.

Lemma not_recipient_released cl slot c ex :
  ~ In slot (recipients (<[slot:=released c]> cl) ex).
Proof.
  rewrite recipients_spec. intros (_ & c' & Hc & Ha & _).
  apply list_lookup_insert_Some in Hc as [(_ & <- & _)|(Hne & _)];
    [discriminate|congruence].
Qed.

(** A read that returns zero or a negative value takes the session down. *)
Lemma handle_client_data_teardown E slot st c :
  clients st !! slot = Some c ->
  active c = true ->
  (slot < MAX_CLIENTS)%nat ->
  read_ret (incoming E st c) <= 0 ->
  exists D,
    let cl' := <[slot:=released c]> (clients st) in
    handle_client_data E slot st =
      mkState cl' (server_sock st) (num_clients st - 1)
        (trace st ++ [EvRead (fd c) (incoming E st c);
                      EvPrintf disconnected_fmt
                        [PStr (shown_name c); PInt (Z.of_nat slot); PInt (fd c)];
                      EvClose (fd c)] ++ D)
    /\ writes_of D =
         map (fun i => (fd_of cl' i, leave_msg (cstr (name c))))
           (recipients cl' (-1))
    /\ Forall (fun e => bcast_event e = true) D
    /\ Forall (fun p => fst p = failed_to_send) (printfs_of D).
Proof.
  intros Hc Ha Hs Hn. unfold handle_client_data. rewrite Hc.
  unfold sys_read. fold (incoming E st c). cbv zeta.
  destruct (Z.leb_spec (read_ret (incoming E st c)) 0); [|lia].
  rewrite (remove_client_active _ _ c); simpl; rewrite ?Nat2Z.id; auto;
    [|unfold MAX_CLIENTS in *; lia].
  split_broadcast E D W B P.
  exists D. simpl in *. rewrite <- !app_assoc. simpl.
  rewrite <- recipients_released. auto.
Qed.

(** A read that delivers more than six bytes starting with the rename
    token renames the session. *)
Lemma handle_client_data_rename E slot st c d :
  clients st !! slot = Some c ->
  incoming E st c = RData d ->
  is_name_cmd (Z.of_nat (length d)) d = true ->
  exists D,
    let c1 := mkClient (fd c) (active c) (rename_field d (name c))
                (addr c) (port c) in
    let cl' := <[slot:=c1]> (clients st) in
    handle_client_data E slot st =
      mkState cl' (server_sock st) (num_clients st)
        (trace st ++ [EvRead (fd c) (RData d)] ++ D)
    /\ writes_of D =
         map (fun i => (fd_of cl' i,
                        rename_msg (cstr (name c)) (cstr (name c1))))
           (recipients cl' (-1))
    /\ Forall (fun e => bcast_event e = true) D.
Proof.
  intros Hc Hin Hcmd. unfold handle_client_data. rewrite Hc.
  unfold sys_read. fold (incoming E st c). rewrite Hin. cbv zeta.
  simpl read_ret. simpl read_buf.
  assert (6 < Z.of_nat (length d)) as Hlen.
  { unfold is_name_cmd in Hcmd. rewrite !andb_true_iff in Hcmd.
    destruct Hcmd as [[[[[[H6 _] _] _] _] _] _]. now apply Z.ltb_lt in H6. }
  destruct (Z.leb_spec (Z.of_nat (length d)) 0); [lia|].
  rewrite Hcmd.
  split_broadcast E D W B P.
  exists D. simpl in *. rewrite <- !app_assoc. auto.
Qed.

Lemma name_ok_rename c d :
  name_ok c ->
  name_ok (mkClient (fd c) (active c) (rename_field d (name c)) (addr c) (port c)).
Proof.
  intros [Hl Hc]. unfold name_ok. simpl.
  rewrite rename_field_length, cstr_rename_field by exact Hl.
  split; [exact Hl|].
  pose proof (cstr_length_le (name_argument d)).
  pose proof (name_argument_length d). unfold NAME_SIZE. lia.
Qed.

Lemma Inv_set_client i c st :
  Inv st -> name_ok c -> Inv (set_clients (fun cl => <[i:=c]> cl) st).
Proof.
  intros (Hl & Hn & Ht) Hc. repeat split; simpl; auto.
  - now rewrite length_insert.
  - now apply Forall_insert.
Qed.

Lemma Inv_handle_client_data E slot st :
  Inv st -> Inv (handle_client_data E slot st).
Proof.
  intros H. unfold handle_client_data.
  destruct (clients st !! slot) as [c|] eqn:Hc; [|exact H].
  unfold sys_read. cbv zeta.
  set (r := clamp_read _ _).
  assert (Inv (emit (EvRead (fd c) r) st)) as H0 by (apply Inv_emit; auto).
  destruct (read_ret r <=? 0).
  { apply Inv_broadcast, Inv_remove_client, H0. }
  destruct (is_name_cmd (read_ret r) (read_buf r)).
  { apply Inv_broadcast, Inv_set_client; [exact H0|].
    apply name_ok_rename. eapply Inv_lookup; eauto. }
  destruct (is_list_cmd (read_ret r) (read_buf r)).
  { unfold sys_write. simpl. apply Inv_emit; auto. }
  apply Inv_broadcast, Inv_emit; auto.
Qed.

(** ** The event loop *)

Lemma Inv_client_hangup E i st : Inv st -> Inv (client_hangup E i st).
Proof.
  intros H. unfold client_hangup.
  destruct (clients st !! i); [|exact H].
  apply Inv_broadcast, Inv_remove_client, H.
Qed.

Lemma Inv_dispatch_entry E p i st : Inv st -> Inv (dispatch_entry E p i st).
Proof.
  intros H. unfold dispatch_entry.
  assert (Inv (if has_flag (revents p) POLLIN
               then handle_client_data E i st else st)) as H1.
  { destruct (has_flag (revents p) POLLIN);
      [apply Inv_handle_client_data|]; exact H. }
  destruct (has_flag (revents p) (Z.lor POLLERR POLLHUP));
    [apply Inv_client_hangup|]; exact H1.
Qed.

Lemma Inv_client_loop E fds ix : forall idx st,
  Inv st -> Inv (client_loop E ix fds idx st).
Proof.
  induction ix as [|i ix IH]; intros idx st H; simpl; [exact H|].
  destruct (negb (idx <? length fds)%nat); [exact H|].
  destruct (clients st !! i) as [c|]; [|exact H].
  destruct (negb (active c)); [now apply IH|].
  destruct (find_entry (drop idx fds) (fd c)); apply IH; auto.
  now apply Inv_dispatch_entry.
Qed.

Lemma Inv_cycle E st : Inv st -> Inv (fst (cycle E st)).
Proof.
  intros H. unfold cycle.
  destruct (env_poll E (trace st) (build_poll_array st)) as [ready revs].
  set (st0 := emit _ st).
  assert (Inv st0) as H0 by (apply Inv_emit; auto).
  destruct (ready <? 0); [cbn [fst]; apply Inv_emit; auto|].
  destruct (ready =? 0); [exact H0|].
  set (r0 := nth 0 _ 0).
  assert (Inv (if has_flag r0 POLLIN
               then handle_new_connection E st0 else st0)) as H1.
  { destruct (has_flag r0 POLLIN); [apply Inv_handle_new_connection|];
      exact H0. }
  destruct (has_flag r0 (Z.lor POLLERR POLLHUP)); cbn [fst].
  - apply Inv_emit; auto.
  - now apply Inv_client_loop.
Qed.

Lemma Inv_startup E st : startup E = inl st -> Inv st.
Proof.
  unfold startup.
  match goal with |- context [env_socket E ?t] => set (sock := env_socket E t) end.
  destruct (sock <? 0); [discriminate|].
  match goal with |- context [env_bind E ?t sock] => set (b := env_bind E t sock) end.
  destruct (b <? 0); [discriminate|].
  match goal with |- context [env_listen E ?t sock] =>
    set (l := env_listen E t sock) end.
  destruct (l <? 0); [discriminate|].
  intros [= <-]. split; [reflexivity|split].
  - simpl.
    repeat (apply Forall_cons; split;
            [split; [reflexivity|vm_compute; lia]|]).
    apply Forall_nil_2.
  - simpl. repeat (apply Forall_cons; split; [reflexivity|]).
    apply Forall_nil_2.
Qed.

Lemma reachable_Inv E st : reachable E st -> Inv st.
Proof.
  induction 1 as [st Hs|st st' _ IH Hc].
  - eapply Inv_startup; eauto.
  - change st' with (fst (st', true)). rewrite <- Hc. now apply Inv_cycle.
Qed.

Lemma run_reachable E turns : forall st st',
  reachable E st -> run E turns st = Some st' -> reachable E st'.
Proof.
  induction turns as [|k IH]; intros st st' Hr; simpl.
  - now intros [= <-].
  - destruct (cycle E st) as [st1 [|]] eqn:Hc; [|discriminate].
    apply IH. eapply reach_cycle; eauto.
Qed.

Lemma run_from_start_reachable E turns st :
  run_from_start E turns = Some st -> reachable E st.
Proof.
  unfold run_from_start. destruct (startup E) as [s|s] eqn:Hs; [|discriminate].
  apply run_reachable. now apply reach_start.
Qed.


Lemma state_after_reachable E turns :
  run_from_start E turns <> None -> reachable E (state_after E turns).
Proof.
  intros Hrun. apply (run_from_start_reachable E turns). unfold state_after.
  destruct (run_from_start E turns); [reflexivity|contradiction].
Qed.


Lemma cycle_goes_on E st :
  has_flag (listener_revents E st) (Z.lor POLLERR POLLHUP) = false ->
  snd (cycle E st) = true.
Proof.
  unfold listener_revents, cycle.
  destruct (env_poll E (trace st) (build_poll_array st)) as [ready revs].
  cbn [snd]. intros Hr.
  destruct (ready <? 0); [reflexivity|].
  destruct (ready =? 0); [reflexivity|].
  cbn [build_poll_array set_revents map nth revents].
  rewrite Hr. reflexivity.
Qed.

(** A turn in which the poll reports something ready: the listening
    socket is looked at first, then its error flags, then the clients. *)
Lemma cycle_ready E st ready revs :
  env_poll E (trace st) (build_poll_array st) = (ready, revs) ->
  0 < ready ->
  cycle E st =
    let st0 := emit (EvPoll (build_poll_array st) ready revs) st in
    let st1 :=
      if has_flag (nth 0 revs 0) POLLIN then handle_new_connection E st0
      else st0 in
    if has_flag (nth 0 revs 0) (Z.lor POLLERR POLLHUP)
    then (printf "chatserver: server socket error\n" [] st1, false)
    else (client_loop E (seq 0 MAX_CLIENTS)
            (set_revents (build_poll_array st) revs) 1 st1, true).
Proof.
  intros Hpoll Hready. unfold cycle. rewrite Hpoll.
  replace (ready <? 0) with false by (symmetry; apply Z.ltb_ge; lia).
  replace (ready =? 0) with false by (symmetry; apply Z.eqb_neq; lia).
  reflexivity.
Qed.

(** * The claims *)

(** ** Capacity *)

(** C3, counterexample: fourteen sessions are active when the poll
    reports the listening socket both readable and hung up.  The accept
    succeeds on descriptor 18, the notice is written to it and it is
    closed, the registry keeps its fourteen sessions; but the server does
    not go on: the loop is left in that same turn and the program
    exits. *)
Lemma rejected_then_loop_left :
  let st := state_after overfull_env 14 in
  reachable overfull_env st
  /\ length (clients st) = MAX_CLIENTS
  /\ all_active (clients st)
  /\ events_since st (fst (cycle overfull_env st)) =
       [EvPoll (build_poll_array st) 1 [Z.lor POLLIN POLLHUP];
        EvAccept 3 18 16777343 4018;
        EvPrintf "chatserver: server full, rejecting connection\n" [];
        EvWrite 18 (str "Server is full. Please try again later." ++ [LF]) 40;
        EvClose 18;
        EvPrintf "chatserver: server socket error\n" []]
  /\ clients (fst (cycle overfull_env st)) = clients st
  /\ snd (cycle overfull_env st) = false
  /\ exists st',
       main overfull_env 15 = Some st'
       /\ last (trace st') = Some (EvExit 0).
Proof.
  cbv zeta.
  split; [apply state_after_reachable; vm_compute; discriminate|].
  split; [vm_compute; reflexivity|].
  split; [unfold all_active; vm_compute;
          repeat (apply Forall_cons; split; [reflexivity|]);
          apply Forall_nil_2|].
  split; [vm_compute; reflexivity|].
  split; [vm_compute; reflexivity|].
  split; [vm_compute; reflexivity|].
  exists (default static_state (main overfull_env 15)).
  split; vm_compute; reflexivity.
Qed.

(** C3, as the code has it: when the poll reports a connection pending
    on the listening socket and the accept succeeds while all MAX_CLIENTS
    slots are active, the rejection is logged, the new handle is sent the
    notice [Server is full. Please try again later.] and is then closed;
    no session is created, the registry and the session count stay as
    they were.  The server goes on with the client loop of that turn,
    unless the same poll result also reports an error or a hang-up on the
    listening socket: then the loop is left after the rejection. *)
Theorem accept_at_capacity_rejected E st ready revs h a p :
  length (clients st) = MAX_CLIENTS ->
  all_active (clients st) ->
  env_poll E (trace st) (build_poll_array st) = (ready, revs) ->
  0 < ready ->
  has_flag (nth 0 revs 0) POLLIN = true ->
  let st0 := emit (EvPoll (build_poll_array st) ready revs) st in
  env_accept E (trace st0) (server_sock st) = (h, a, p) ->
  0 <= h ->
  exists r,
    let st1 :=
      mkState (clients st) (server_sock st) (num_clients st)
        (trace st0
         ++ [EvAccept (server_sock st) h a p;
             EvPrintf "chatserver: server full, rejecting connection\n" [];
             EvWrite h (str "Server is full. Please try again later." ++ [LF]) r;
             EvClose h]) in
    handle_new_connection E st0 = st1
    /\ cycle E st =
         if has_flag (nth 0 revs 0) (Z.lor POLLERR POLLHUP)
         then (printf "chatserver: server socket error\n" [] st1, false)
         else (client_loop E (seq 0 MAX_CLIENTS)
                 (set_revents (build_poll_array st) revs) 1 st1, true).
Proof.
  intros Hl Hall Hpoll Hready Hin st0 Hacc Hh.
  destruct (handle_new_connection_full E st0 h a p Hl Hall Hacc Hh) as [r Hr].
  exists r. cbv zeta. split; [exact Hr|].
  rewrite (cycle_ready E st ready revs Hpoll Hready). cbv zeta.
  fold st0. rewrite Hin, Hr. reflexivity.
Qed.

(** The statement at a full registry, for a turn in which only the
    listening socket is readable: the notice goes to descriptor 18 and
    the loop goes on. *)
Lemma accept_at_capacity_witness :
  writes_of (events_since full_house (fst (cycle knock_env full_house))) =
    [(18, str "Server is full. Please try again later." ++ [LF])]
  /\ closes_of (events_since full_house (fst (cycle knock_env full_house))) =
       [18]
  /\ snd (cycle knock_env full_house) = true.
Proof.
  destruct (accept_at_capacity_rejected knock_env full_house 1 [POLLIN]
              18 16777343 4018) as (r & Hh & Hc).
  - reflexivity.
  - unfold all_active. vm_compute.
    repeat (apply Forall_cons; split; [reflexivity|]). apply Forall_nil_2.
  - reflexivity.
  - lia.
  - reflexivity.
  - reflexivity.
  - lia.
  - rewrite Hc. vm_compute. repeat split.
Defined.

(** ** Broadcast *)

(** C6, counterexample: with two active sessions and a write to the first
    one failing, the broadcast still writes to both, logs the failure,
    and leaves the registry exactly as it was: the failing recipient is
    still active, nothing records that it should be taken down. *)
Lemma failed_recipient_not_marked :
  let st' := broadcast_message (failing_write 4) (str "hello") (-1) two_sessions in
  failed_writes (trace st') = 1%nat
  /\ writes_of (trace st') = [(4, str "hello"); (5, str "hello")]
  /\ printfs_of (trace st') = [(failed_to_send, [PInt 0])]
  /\ clients st' = clients two_sessions
  /\ num_clients st' = num_clients two_sessions
  /\ server_sock st' = server_sock two_sessions.
Proof. vm_compute. repeat split. Qed.

(** C6, as the code has it: a broadcast addresses exactly the active slots
    other than the excluded one, each of them once, and each gets one
    write of the full message whatever the earlier writes returned.  The
    broadcast produces nothing but these writes and one log line per
    failed write; the registry, the session count and the listening
    socket are left unchanged, so a failing recipient is logged, not
    marked. *)
Theorem broadcast_fan_out E msg exclude st :
  exists D,
    broadcast_message E msg exclude st =
      mkState (clients st) (server_sock st) (num_clients st) (trace st ++ D)
    /\ writes_of D =
         map (fun i => (fd_of (clients st) i, msg))
           (recipients (clients st) exclude)
    /\ (forall i,
          In i (recipients (clients st) exclude) <->
          (i < MAX_CLIENTS)%nat
          /\ exists c, clients st !! i = Some c /\ active c = true
                       /\ Z.of_nat i <> exclude)
    /\ List.NoDup (recipients (clients st) exclude)
    /\ Forall (fun e => bcast_event e = true) D
    /\ Forall (fun p => fst p = failed_to_send) (printfs_of D)
    /\ length (printfs_of D) = failed_writes D.
Proof.
  destruct (broadcast_message_spec E msg exclude st) as (D & HD & W & B & P & F).
  exists D. split; [exact HD|]. split; [exact W|].
  split; [intros i; apply recipients_spec|].
  split; [apply recipients_NoDup|]. auto.
Qed.

(** ** Release *)

(** C7, counterexample: releasing the active slot 0 leaves the peer
    address and port of the slot in place, and of the name only the first
    byte is cleared. *)
Lemma release_keeps_peer_address :
  let st' := remove_client 0 two_sessions in
  exists c',
    clients st' !! 0%nat = Some c'
    /\ active c' = false
    /\ addr c' = 16777343
    /\ port c' = 4004
    /\ take 5 (name c') = [NUL; "s"; "e"; "r"; "0"]%char.
Proof. vm_compute. eexists. repeat split. Qed.

(** C7, as the code has it: releasing an active slot marks it inactive,
    closes its handle once, sets the descriptor to -1, empties the
    nickname and decrements the session count; the peer address and port
    are left as they were.  Releasing again changes nothing, and so does
    releasing any inactive or out-of-range slot. *)
Theorem release_active_slot slot st c :
  0 <= slot < Z.of_nat MAX_CLIENTS ->
  clients st !! Z.to_nat slot = Some c ->
  active c = true ->
  let st' := remove_client slot st in
  exists c',
    clients st' = <[Z.to_nat slot:=c']> (clients st)
    /\ active c' = false /\ fd c' = -1
    /\ name c' = <[0%nat:=NUL]> (name c) /\ cstr (name c') = []
    /\ addr c' = addr c /\ port c' = port c
    /\ num_clients st' = num_clients st - 1
    /\ closes_of (trace st') = closes_of (trace st) ++ [fd c]
    /\ remove_client slot st' = st'
    /\ (forall s k,
          (k < 0 \/ Z.of_nat MAX_CLIENTS <= k
           \/ forall c0, clients s !! Z.to_nat k = Some c0 -> active c0 = false) ->
          remove_client k s = s).
Proof.
  intros Hr Hc Ha st'. subst st'.
  rewrite (remove_client_active slot st c Hr Hc Ha).
  exists (released c). cbn [clients num_clients trace].
  split; [reflexivity|]. split; [reflexivity|]. split; [reflexivity|].
  split; [reflexivity|].
  split; [apply released_cstr|]. split; [reflexivity|]. split; [reflexivity|].
  split; [reflexivity|].
  split; [rewrite closes_of_app; reflexivity|].
  split; [|intros s k; apply remove_client_noop].
  apply remove_client_noop. right. right. cbn [clients]. intros c0 H0.
  apply list_lookup_insert_Some in H0 as [(_ & <- & _)|(Hne & _)];
    [reflexivity|congruence].
Qed.

(** The statement at slot 0 of the two-session registry. *)
Lemma release_active_slot_witness :
  closes_of (trace (remove_client 0 two_sessions)) = [4]
  /\ remove_client 0 (remove_client 0 two_sessions) = remove_client 0 two_sessions.
Proof.
  destruct (release_active_slot 0 two_sessions (session 4 "user0"))
    as (c' & _ & _ & _ & _ & _ & _ & _ & _ & Hcl & Hid & _).
  - vm_compute. split; congruence.
  - reflexivity.
  - reflexivity.
  - split; [exact Hcl|exact Hid].
Defined.


(** ** Reads that end a session *)

(** The data handler on end of file or a hard error: the leave
    announcement is built from the nickname the session had, the slot is
    released (inactive, descriptor -1, handle closed once, count
    decremented) and the announcement is written once to each session
    that is still active; the departed slot is not among them.  The
    released slot is free for the next accept: the search for a free slot
    succeeds at or below it, and a connection accepted while all lower
    slots are taken is installed in it. *)
Lemma eof_read_closes_session E slot st c :
  clients st !! slot = Some c ->
  active c = true ->
  (slot < MAX_CLIENTS)%nat ->
  incoming E st c = REof \/ incoming E st c = RError ->
  let st' := handle_client_data E slot st in
  clients st' = <[slot:=released c]> (clients st)
  /\ num_clients st' = num_clients st - 1
  /\ (exists D,
        trace st' =
          trace st ++ [EvRead (fd c) (incoming E st c);
                       EvPrintf disconnected_fmt
                         [PStr (shown_name c); PInt (Z.of_nat slot);
                          PInt (fd c)];
                       EvClose (fd c)] ++ D
        /\ writes_of D =
             map (fun i => (fd_of (clients st') i, leave_msg (cstr (name c))))
               (recipients (clients st') (-1))
        /\ closes_of D = [])
  /\ List.NoDup (recipients (clients st') (-1))
  /\ ~ In slot (recipients (clients st') (-1))
  /\ (exists k, find_empty_slot st' = Z.of_nat k /\ (k <= slot)%nat)
  /\ (forall h a p,
        (forall i c0, (i < slot)%nat -> clients st !! i = Some c0 ->
                      active c0 = true) ->
        env_accept E (trace st') (server_sock st') = (h, a, p) ->
        0 <= h ->
        exists c1,
          clients (handle_new_connection E st') !! slot = Some c1
          /\ active c1 = true /\ fd c1 = h).
Proof.
  intros Hc Ha Hs Hin st'.
  destruct (handle_client_data_teardown E slot st c Hc Ha Hs)
    as (D & HD & W & B & _).
  { destruct Hin as [-> | ->]; simpl; lia. }
  cbv zeta in HD, W. subst st'. rewrite HD. cbn [clients num_clients trace].
  pose proof (lookup_lt_Some _ _ _ Hc) as Hlen.
  assert (<[slot:=released c]> (clients st) !! slot = Some (released c)) as Hrel
    by (now apply list_lookup_insert_eq).
  split; [reflexivity|]. split; [reflexivity|].
  split; [exists D; split; [reflexivity|];
          split; [exact W|now apply bcast_only_no_close]|].
  split; [apply recipients_NoDup|].
  split; [apply not_recipient_released|].
  match goal with |- context [find_empty_slot ?s] => set (s1 := s) end.
  destruct (find_empty_slot_free s1 slot (released c) Hs Hrel eq_refl)
    as (k & c' & Hk & Hle & Hc' & Ha' & Hsame).
  split; [exists k; auto|].
  intros h a p Hlow Hacc Hh.
  assert (k = slot) as ->.
  { apply Hsame. intros i c0 Hi Hi0. apply (Hlow i c0 Hi).
    cbn [s1 clients] in Hi0. rewrite list_lookup_insert_ne in Hi0 by lia.
    exact Hi0. }
  destruct (handle_new_connection_accepts E s1 h a p slot c' Hacc Hh Hk Hc')
    as (D' & HD' & _).
  cbv zeta in HD'. rewrite HD'. cbn [clients].
  eexists. split; [apply list_lookup_insert_eq|split; reflexivity].
  cbn [s1 clients]. now rewrite length_insert.
Qed.

(** The handler at slot 0 of the two-session registry, for end of file. *)
Lemma eof_read_closes_session_at_slot_0 :
  writes_of (trace (handle_client_data (one_shot REof (-1, 0, 0)) 0 two_sessions))
  = [(5, leave_msg (str "user0"))]
  /\ num_clients (handle_client_data (one_shot REof (-1, 0, 0)) 0 two_sessions) = 1.
Proof.
  destruct (eof_read_closes_session (one_shot REof (-1, 0, 0)) 0%nat
              two_sessions (session 4 "user0"))
    as (_ & Hn & (D & HD & W & _) & _).
  - reflexivity.
  - reflexivity.
  - unfold MAX_CLIENTS. lia.
  - left. reflexivity.
  - split; [|exact Hn]. rewrite HD, !writes_of_app, W. reflexivity.
Defined.


(** ** Readable and hung up *)

Lemma handle_client_data_cases E i st c :
  clients st !! i = Some c ->
  active c = true ->
  (i < MAX_CLIENTS)%nat ->
  exists c1 D,
    clients (handle_client_data E i st) = <[i:=c1]> (clients st)
    /\ trace (handle_client_data E i st) =
         trace st ++ EvRead (fd c) (incoming E st c) :: D
    /\ ((c1 = released c /\ closes_of D = [fd c])
        \/ (active c1 = true /\ fd c1 = fd c /\ closes_of D = [])).
Proof.
  intros Hc Ha Hi.
  destruct (Z.leb_spec (read_ret (incoming E st c)) 0) as [Hn|Hn].
  - destruct (handle_client_data_teardown E i st c Hc Ha Hi Hn)
      as (D & HD & _ & B & _).
    cbv zeta in HD. rewrite HD. cbn [clients trace].
    eexists (released c), _. split; [reflexivity|]. split; [reflexivity|].
    left. split; [reflexivity|]. simpl. now rewrite (bcast_only_no_close D B).
  - unfold handle_client_data. rewrite Hc. unfold sys_read.
    fold (incoming E st c). cbv zeta.
    destruct (Z.leb_spec (read_ret (incoming E st c)) 0); [lia|].
    destruct (is_name_cmd _ _).
    { split_broadcast E D W B P.
      cbn [clients trace emit set_clients].
      eexists _, D. split; [reflexivity|].
      split; [now rewrite <- app_assoc|].
      right. cbn [active fd]. auto using bcast_only_no_close. }
    destruct (is_list_cmd _ _).
    { unfold sys_write. cbn [fst clients trace emit].
      eexists c, [_]. split; [now rewrite list_insert_id|].
      split; [now rewrite <- app_assoc|]. right. auto. }
    split_broadcast E D W B P.
    cbn [clients trace emit printf].
    eexists c, (_ :: D). split; [now rewrite list_insert_id|].
    split; [now rewrite <- !app_assoc|].
    right. cbn [closes_of]. auto using bcast_only_no_close.
Qed.

Lemma client_hangup_spec E i s c1 :
  clients s !! i = Some c1 ->
  (i < MAX_CLIENTS)%nat ->
  exists D,
    clients (client_hangup E i s) =
      (if active c1 then <[i:=released c1]> (clients s) else clients s)
    /\ trace (client_hangup E i s) = trace s ++ D
    /\ closes_of D = (if active c1 then [fd c1] else []).
Proof.
  intros Hc Hi. unfold client_hangup. rewrite Hc.
  split_broadcast E D W B P.
  cbn [clients trace].
  destruct (active c1) eqn:Ha.
  - rewrite (remove_client_active _ _ c1); rewrite ?Nat2Z.id; auto;
      [|unfold MAX_CLIENTS in *; lia].
    cbn [clients trace]. eexists. split; [reflexivity|].
    split; [now rewrite <- app_assoc|].
    rewrite closes_of_app, (bcast_only_no_close D B). reflexivity.
  - rewrite remove_client_noop
      by (right; right; rewrite Nat2Z.id; congruence).
    exists D. auto using bcast_only_no_close.
Qed.

(** The client loop hands the entry it finds for an active slot to
    [dispatch_entry] and moves on to the next slot and the next entry. *)
Lemma client_loop_found E i ix fds idx st c p :
  (idx < length fds)%nat ->
  clients st !! i = Some c ->
  active c = true ->
  find_entry (drop idx fds) (fd c) = Some p ->
  client_loop E (i :: ix) fds idx st =
  client_loop E ix fds (S idx) (dispatch_entry E p i st).
Proof.
  intros Hidx Hc Ha Hp. cbn [client_loop].
  apply Nat.ltb_lt in Hidx. rewrite Hidx, Hc, Ha, Hp. reflexivity.
Qed.

(** C2, counterexample: one turn of the event loop in which the first
    session is reported both readable and hung up, and its read delivers
    two bytes.  The session is read, its line is relayed to the other
    session, and only then is it taken down. *)
Lemma readable_and_hung_up_is_read :
  let E := scripted [session_turn 0 (Z.lor POLLIN POLLHUP) (RData (str "hi"))] in
  let st' := fst (cycle E two_sessions) in
  listener_revents E two_sessions = 0
  /\ reads_of (trace st') = [4]
  /\ writes_of (trace st') =
       [(5, chat_line (str "user0") (str "hi")); (5, leave_msg (str "user0"))]
  /\ closes_of (trace st') = [4]
  /\ clients st' !! 0%nat = Some (released (session 4 "user0")).
Proof. vm_compute. repeat split. Qed.

(** C2, as the code has it: when the client loop reaches an active slot
    whose entry is reported both readable and hung up (or in error), it
    first runs the data handler, so the session is read, and then the
    hang-up handling, and goes on with the next slot and entry; after
    that the session is inactive, its descriptor is -1 and its handle has
    been closed exactly once. *)
Theorem readable_and_hung_up_dispatch E ix fds idx i st c p :
  (idx < length fds)%nat ->
  clients st !! i = Some c ->
  active c = true ->
  (i < MAX_CLIENTS)%nat ->
  find_entry (drop idx fds) (fd c) = Some p ->
  has_flag (revents p) POLLIN = true ->
  has_flag (revents p) (Z.lor POLLERR POLLHUP) = true ->
  let st' := client_hangup E i (handle_client_data E i st) in
  client_loop E (i :: ix) fds idx st = client_loop E ix fds (S idx) st'
  /\ dispatch_entry E p i st = st'
  /\ (exists D,
        trace st' = trace st ++ EvRead (fd c) (incoming E st c) :: D
        /\ closes_of D = [fd c])
  /\ (exists c',
        clients st' !! i = Some c' /\ active c' = false /\ fd c' = -1).
Proof.
  intros Hidx Hc Ha Hi Hp Hin Hup st'.
  assert (dispatch_entry E p i st = st') as Hd
    by (unfold dispatch_entry; now rewrite Hin, Hup).
  split; [rewrite <- Hd; now apply (client_loop_found E i ix fds idx st c p)|].
  split; [exact Hd|]. subst st'.
  pose proof (lookup_lt_Some _ _ _ Hc) as Hlen.
  destruct (handle_client_data_cases E i st c Hc Ha Hi)
    as (c1 & D & Hcl & Htr & Hcase).
  assert (clients (handle_client_data E i st) !! i = Some c1) as Hc1
    by (rewrite Hcl; now apply list_lookup_insert_eq).
  destruct (client_hangup_spec E i _ c1 Hc1 Hi) as (D' & Hcl' & Htr' & Hclose).
  rewrite Hcl', Htr', Htr, Hcl.
  split.
  - exists (D ++ D'). rewrite <- app_assoc. split; [reflexivity|].
    rewrite closes_of_app, Hclose.
    destruct Hcase as [[-> ->]|(-> & Hfd & ->)]; simpl; congruence.
  - destruct Hcase as [[-> _]|(-> & _ & _)].
    + exists (released c). cbn [active released].
      split; [now apply list_lookup_insert_eq|split; reflexivity].
    + exists (released c1). rewrite list_insert_insert_eq.
      split; [now apply list_lookup_insert_eq|split; reflexivity].
Qed.

(** The statement at slot 0 of the two-session registry, with its entry
    flagged readable and hung up. *)
Lemma readable_and_hung_up_dispatch_witness :
  exists c',
    clients (client_hangup (one_shot (RData (str "hi")) (-1, 0, 0)) 0
               (handle_client_data (one_shot (RData (str "hi")) (-1, 0, 0)) 0
                  two_sessions))
      !! 0%nat = Some c'
    /\ active c' = false /\ fd c' = -1.
Proof.
  destruct (readable_and_hung_up_dispatch (one_shot (RData (str "hi")) (-1, 0, 0))
              [1%nat]
              (set_revents (build_poll_array two_sessions)
                 [0; Z.lor POLLIN POLLHUP; 0])
              1%nat 0%nat two_sessions (session 4 "user0")
              (mkPollfd 4 POLLIN (Z.lor POLLIN POLLHUP)))
    as (_ & _ & _ & H).
  - vm_compute. lia.
  - reflexivity.
  - reflexivity.
  - unfold MAX_CLIENTS. lia.
  - reflexivity.
  - reflexivity.
  - reflexivity.
  - exact H.
Defined.

(** When the read of such an entry returns end of file, the data handler
    has already released the slot; the hang-up branch then runs on the
    released slot: nothing is closed a second time, but a further
    announcement, built from the emptied name, is broadcast. *)
Lemma hang_up_after_eof_announces_again :
  let E := scripted [session_turn 0 (Z.lor POLLIN POLLHUP) REof] in
  let st' := fst (cycle E two_sessions) in
  reads_of (trace st') = [4]
  /\ closes_of (trace st') = [4]
  /\ writes_of (trace st') = [(5, leave_msg (str "user0")); (5, leave_msg [])].
Proof. vm_compute. repeat split. Qed.

(** ** End of file together with a hang-up *)

(** C4: two sessions, [user0] on descriptor 4 and [user1] on descriptor
    5; the poll reports descriptor 4 readable and hung up and the read
    returns end of file.  The data handler releases the slot and
    announces the departure of [user0]; the hang-up branch of the client
    loop then runs for the same entry, builds a second announcement from
    the name field that the release has just emptied, and broadcasts it:
    the remaining session receives two leave announcements, the second
    one without a nickname. *)
Theorem eof_with_hang_up_announces_twice :
  let st := state_after eof_hangup_env 2 in
  let st' := state_after eof_hangup_env 3 in
  reachable eof_hangup_env st
  /\ reachable eof_hangup_env st'
  /\ (exists c, clients st !! 0%nat = Some c /\ active c = true
                /\ fd c = 4 /\ cstr (name c) = str "user0")
  /\ (exists c, clients st !! 1%nat = Some c /\ active c = true /\ fd c = 5)
  /\ events_since st st' =
       [EvPoll (build_poll_array st) 1 [0; Z.lor POLLIN POLLHUP];
        EvRead 4 REof;
        EvPrintf disconnected_fmt [PStr (str "user0"); PInt 0; PInt 4];
        EvClose 4;
        EvWrite 5 (str "*** user0 has left the chat ***" ++ [LF]) 32;
        EvWrite 5 (str "***  has left the chat ***" ++ [LF]) 27]
  /\ (exists c, clients st' !! 0%nat = Some c /\ active c = false
                /\ fd c = -1)
  /\ num_clients st' = 1.
Proof.
  cbv zeta.
  split; [apply state_after_reachable; vm_compute; discriminate|].
  split; [apply state_after_reachable; vm_compute; discriminate|].
  split; [eexists; split; [vm_compute; reflexivity|repeat split]|].
  split; [eexists; split; [vm_compute; reflexivity|repeat split]|].
  split; [vm_compute; reflexivity|].
  split; [eexists; split; [vm_compute; reflexivity|repeat split]|].
  vm_compute. reflexivity.
Qed.

(** ** Rename *)

Lemma is_name_cmd_prefix d :
  (6 < length d)%nat ->
  take 6 d = str "/name " ->
  is_name_cmd (Z.of_nat (length d)) d = true.
Proof.
  intros Hlen Hpre. unfold is_name_cmd.
  destruct d as [|c0 [|c1 [|c2 [|c3 [|c4 [|c5 r]]]]]]; simpl in Hlen; try lia.
  cbn in Hpre. injection Hpre as -> -> -> -> -> ->.
  destruct (Z.ltb_spec 6 (Z.of_nat (length ("/" :: "n" :: "a" :: "m" :: "e" :: " " :: r)%char)))
    as [_|Hle]; [reflexivity|].
  simpl length in Hle. lia.
Qed.

Lemma cstr_name_argument_nil d :
  cstr (name_argument d) = [] <->
  drop 6 d = []
  \/ exists x r, drop 6 d = x :: r /\ (x = LF \/ x = CR \/ x = NUL).
Proof.
  unfold name_argument. destruct (drop 6 d) as [|x r]; simpl.
  - split; auto.
  - destruct (Ascii.eqb_spec x LF) as [->|HLF]; simpl.
    { split; [|reflexivity]. intros _. right. exists LF, r. auto. }
    destruct (Ascii.eqb_spec x CR) as [->|HCR]; simpl.
    { split; [|reflexivity]. intros _. right. exists CR, r. auto. }
    destruct (Ascii.eqb_spec x NUL) as [->|HNUL].
    { split; [|reflexivity]. intros _. right. exists NUL, r. auto. }
    split; [discriminate|].
    intros [H|(x' & r' & Heq & [H|[H|H]])]; congruence.
Qed.





(** ** Blocking mode *)

Lemma nonblocking_mode_no_fcntl tr : forall h,
  Forall (fun e => is_fcntl e = false) tr -> nonblocking_mode tr h false = false.
Proof.
  induction tr as [|e tr IH]; intros h Hf; [reflexivity|].
  apply Forall_cons in Hf as [He Hf].
  destruct e; simpl in *; try discriminate; try (now apply IH).
  - destruct (ret =? h); now apply IH.
  - destruct (ret =? h); now apply IH.
Qed.

(** C8, counterexample: after start-up and one accepted connection, the
    listening handle 3 and the session handle 4 are both in blocking
    mode. *)
Lemma handles_left_blocking :
  let st := state_after one_accept_env 1 in
  reachable one_accept_env st
  /\ server_sock st = 3
  /\ (exists c, clients st !! 0%nat = Some c /\ active c = true /\ fd c = 4)
  /\ is_nonblocking st 3 = false
  /\ is_nonblocking st 4 = false.
Proof.
  split; [apply state_after_reachable; vm_compute; discriminate|].
  vm_compute. split; [reflexivity|]. split; [|split; reflexivity].
  eexists. split; [reflexivity|split; reflexivity].
Qed.

(** C8, as the code has it: the server never issues a blocking-mode
    change.  In every reachable state its trace holds no [fcntl] call, so
    the listening handle and every accepted handle are still in the mode
    they were created with, which is blocking. *)
Theorem blocking_mode_never_changed E st :
  reachable E st ->
  Forall (fun e => is_fcntl e = false) (trace st)
  /\ is_nonblocking st (server_sock st) = false
  /\ (forall i c, clients st !! i = Some c -> is_nonblocking st (fd c) = false).
Proof.
  intros Hr. destruct (reachable_Inv E st Hr) as (_ & _ & Hf).
  split; [exact Hf|].
  split; [|intros i c _]; now apply nonblocking_mode_no_fcntl.
Qed.

(** The statement at the state reached after one accepted connection. *)
Lemma blocking_mode_never_changed_witness :
  is_nonblocking (state_after one_accept_env 1)
    (server_sock (state_after one_accept_env 1)) = false.
Proof.
  destruct (blocking_mode_never_changed one_accept_env
              (state_after one_accept_env 1)) as (_ & H & _).
  - apply state_after_reachable. vm_compute. discriminate.
  - exact H.
Defined.

(** ** Reads that are not ready *)
















(** ** Nicknames *)

Lemma default_name_table :
  map (fun k => default_name (Z.of_nat k)) (seq 0 MAX_CLIENTS) =
  map str ["user0"; "user1"; "user2"; "user3"; "user4"; "user5"; "user6";
           "user7"; "user8"; "user9"; "user10"; "user11"; "user12";
           "user13"]%string.
Proof. vm_compute. reflexivity. Qed.

Lemma find_empty_slot_range st k :
  find_empty_slot st = Z.of_nat k -> (k < MAX_CLIENTS)%nat.
Proof.
  unfold find_empty_slot.
  destruct (find_empty_in_spec (clients st) MAX_CLIENTS 0%nat)
    as [[-> _]|(k' & c & -> & Hk & _)]; lia.
Qed.

(** C9, counterexample: a connection is accepted and sends the rename
    token, a space and a line feed.  The state after these two turns is
    reachable and its active session in slot 0 has the empty nickname. *)
Lemma renamed_to_empty_nickname :
  let st := state_after empty_rename_env 2 in
  reachable empty_rename_env st
  /\ exists c,
       clients st !! 0%nat = Some c /\ active c = true /\ cstr (name c) = [].
Proof.
  split; [apply state_after_reachable; vm_compute; discriminate|].
  vm_compute. eexists. split; [reflexivity|split; reflexivity].
Qed.

(** C9, as the code has it: in every reachable state every name field is
    a full array holding a terminated string of at most 31 bytes.  A
    session that becomes active gets, in the same step, the nickname
    "user" followed by its slot number, which is not empty.  A rename
    stores whatever the command carried: the nickname becomes empty
    exactly when the byte after the token and its space is a line
    terminator or NUL. *)
Theorem nickname_discipline E st :
  reachable E st ->
  Forall (fun c => length (name c) = NAME_SIZE
                   /\ (length (cstr (name c)) <= 31)%nat) (clients st)
  /\ (forall s h a p k c,
        Inv s ->
        env_accept E (trace s) (server_sock s) = (h, a, p) ->
        0 <= h ->
        find_empty_slot s = Z.of_nat k ->
        clients s !! k = Some c ->
        exists c1 digits,
          clients (handle_new_connection E s) !! k = Some c1
          /\ active c1 = true
          /\ cstr (name c1) = str "user" ++ digits
          /\ default_name (Z.of_nat k) = str "user" ++ digits)
  /\ (forall s slot c d,
        Inv s ->
        clients s !! slot = Some c ->
        incoming E s c = RData d ->
        (6 < length d)%nat ->
        take 6 d = str "/name " ->
        exists c1,
          clients (handle_client_data E slot s) !! slot = Some c1
          /\ active c1 = active c
          /\ cstr (name c1) = cstr (name_argument d)
          /\ (cstr (name c1) = [] <->
              exists x, d !! 6%nat = Some x /\ (x = LF \/ x = CR \/ x = NUL))).
Proof.
  intros Hr. split; [|split].
  - destruct (reachable_Inv E st Hr) as (_ & Hn & _).
    eapply Forall_impl; [exact Hn|]. intros c [Hl Hc].
    unfold NAME_SIZE in *. split; [exact Hl|lia].
  - intros s h a p k c Hinv Hacc Hh Hk Hc.
    destruct (handle_new_connection_accepts E s h a p k c Hacc Hh Hk Hc)
      as (D & HD & _).
    cbv zeta in HD. rewrite HD. cbn [clients].
    destruct (Inv_lookup s k c Hinv Hc) as [Hl _].
    pose proof (default_name_length (Z.of_nat k)) as Hd.
    destruct (default_name_user (Z.of_nat k)) as [digits Hdig].
    eexists _, digits.
    split; [apply list_lookup_insert_eq; eapply lookup_lt_Some; eauto|].
    split; [reflexivity|]. cbn [name].
    rewrite cstr_strcpy by (unfold NAME_SIZE in Hl; lia).
    rewrite cstr_default_name.
    auto.
  - intros s slot c d Hinv Hc Hin Hlen Hpre.
    destruct (Inv_lookup s slot c Hinv Hc) as [Hl _].
    destruct (handle_client_data_rename E slot s c d Hc Hin
                (is_name_cmd_prefix d Hlen Hpre)) as (D & HD & _).
    pose proof (cstr_rename_field d (name c) Hl) as Hcs.
    cbv zeta in HD. rewrite HD. cbn [clients].
    eexists. split; [apply list_lookup_insert_eq; eapply lookup_lt_Some; eauto|].
    cbn [name active]. split; [reflexivity|]. split; [exact Hcs|].
    rewrite Hcs, cstr_name_argument_nil.
    assert (d !! 6%nat = head (drop 6 d)) as Hhd.
    { rewrite <- (Nat.add_0_r 6) at 1. rewrite <- lookup_drop.
      now destruct (drop 6 d). }
    rewrite Hhd. split.
    + intros [Hnil|(x & r & Hx & Hcase)].
      * apply (f_equal length) in Hnil. rewrite length_drop in Hnil.
        simpl in Hnil. lia.
      * exists x. rewrite Hx. auto.
    + intros (x & Hx & Hcase). right.
      destruct (drop 6 d) as [|y r]; [discriminate|].
      injection Hx as ->. eauto.
Qed.

(** The statement at the state reached by the empty rename. *)
Lemma nickname_discipline_witness :
  Forall (fun c => length (name c) = NAME_SIZE
                   /\ (length (cstr (name c)) <= 31)%nat)
    (clients (state_after empty_rename_env 2)).
Proof.
  destruct (nickname_discipline empty_rename_env
              (state_after empty_rename_env 2)) as [H _].
  - apply state_after_reachable. vm_compute. discriminate.
  - exact H.
Defined.


(** ** The /list reply *)

Lemma list_row_length slot i c :
  name_ok c ->
  (length (list_row slot i c) <= 35 + (if (i =? slot)%nat then 6 else 0))%nat.
Proof.
  intros [_ Hc]. unfold list_row, NAME_SIZE in *.
  rewrite !length_app. cbn [length].
  destruct (i =? slot)%nat; cbn [length str list_ascii_of_string]; lia.
Qed.

Lemma list_loop_length slot cl ix :
  Forall name_ok cl ->
  forall msg,
    (length (list_loop ix slot cl msg) <=
     length msg + 35 * length ix + 6 * count_occ Nat.eq_dec ix slot)%nat.
Proof.
  intros Hok. induction ix as [|i ix IH]; intros msg; simpl; [lia|].
  destruct (cl !! i) as [c|] eqn:Hc.
  - destruct (active c).
    + specialize (IH (msg ++ list_row slot i c)). rewrite length_app in IH.
      rewrite Forall_lookup in Hok.
      pose proof (list_row_length slot i c (Hok i c Hc)) as Hrow.
      destruct (Nat.eq_dec i slot) as [->|Hne].
      * rewrite Nat.eqb_refl in Hrow. lia.
      * apply Nat.eqb_neq in Hne. rewrite Hne in Hrow. lia.
    + specialize (IH msg). destruct (Nat.eq_dec i slot); lia.
  - specialize (IH msg). destruct (Nat.eq_dec i slot); lia.
Qed.

(** The index of the terminating NUL never exceeds 513. *)
Lemma list_msg_index_bound st slot :
  Inv st -> (list_msg_last_index (clients st) slot <= 513)%nat.
Proof.
  intros (_ & Hok & _). unfold list_msg_last_index, build_list_msg.
  pose proof (list_loop_length slot (clients st) (seq 0 MAX_CLIENTS) Hok
                (str "Connected users:" ++ [LF])) as H.
  assert (count_occ Nat.eq_dec (seq 0 MAX_CLIENTS) slot <= 1)%nat as Hocc
    by (apply NoDup_count_occ, List.seq_NoDup).
  rewrite length_seq in H.
  change (length (str "Connected users:" ++ [LF])) with 17%nat in H.
  unfold MAX_CLIENTS in *. lia.
Qed.

(** C10, failing run: fourteen connections are accepted and each takes a
    nickname of 31 characters.  The state is reachable; answering /list
    for slot 0 in it fills [list_msg] up to index 513, beyond the 512
    bytes of the buffer (indices 0 to 511), and the next turn writes the
    513 bytes assembled there. *)
Theorem list_reply_overruns_buffer :
  let st := state_after crowded_env 28 in
  reachable crowded_env st
  /\ length (clients st) = MAX_CLIENTS
  /\ Forall (fun c => active c = true /\ cstr (name c) = long_name) (clients st)
  /\ list_msg_last_index (clients st) 0 = 513%nat
  /\ (LIST_MSG_SIZE <= list_msg_last_index (clients st) 0)%nat
  /\ last (trace (state_after crowded_env 29)) =
       Some (EvWrite 4 (build_list_msg (clients st) 0) 513).
Proof.
  assert (list_msg_last_index (clients (state_after crowded_env 28)) 0 = 513%nat)
    as Hidx by (vm_compute; reflexivity).
  cbv zeta.
  split; [apply state_after_reachable; vm_compute; discriminate|].
  split; [vm_compute; reflexivity|].
  split; [vm_compute; repeat (apply Forall_cons; split; [split; reflexivity|]);
          apply Forall_nil_2|].
  split; [exact Hidx|].
  split; [rewrite Hidx; unfold LIST_MSG_SIZE; lia|].
  vm_compute. reflexivity.
Qed.


(** * Further properties of the code *)

(** ** The default nickname *)

Lemma swap_loop_lookup todo : forall k s j i,
  length s = j ->
  (2 * (k + todo) <= j)%nat ->
  swap_loop todo k j s !! i =
  if decide ((k <= i < k + todo)%nat \/ (j - (k + todo) <= i < j - k)%nat)
  then s !! (j - 1 - i)%nat else s !! i.
Proof.
  induction todo as [|t IH]; intros k s j i Hlen Hk.
  - simpl. case_decide; [lia|reflexivity].
  - cbn [swap_loop].
    rewrite IH by (rewrite ?length_insert; lia).
    assert (forall m, (m < j)%nat -> s !! m = Some (nth m s NUL)) as Hnth.
    { intros m Hm. destruct (nth_lookup_or_length s m NUL); [assumption|lia]. }
    rewrite !list_lookup_insert, !length_insert.
    repeat case_decide; try lia; try reflexivity;
      try (rewrite Hnth by lia; f_equal; f_equal; lia);
      try (symmetry; rewrite Hnth by lia; f_equal; f_equal; lia).
Qed.

Lemma reverse_in_place_reverse s : reverse_in_place s = reverse s.
Proof.
  apply list_eq. intros i. unfold reverse_in_place.
  rewrite (swap_loop_lookup _ 0 s (length s) i eq_refl)
    by (pose proof (Nat.div_mod_eq (length s) 2); lia).
  destruct (Nat.lt_ge_cases i (length s)) as [Hi|Hi].
  - rewrite reverse_lookup by exact Hi.
    pose proof (Nat.div_mod_eq (length s) 2) as Hd.
    pose proof (Nat.mod_upper_bound (length s) 2) as Hm.
    case_decide as Hc.
    + f_equal. lia.
    + assert (i = (length s - 1 - i)%nat) as Hmid by lia.
      f_equal. lia.
  - rewrite (lookup_ge_None_2 (reverse s)) by (rewrite length_reverse; lia).
    pose proof (Nat.div_mod_eq (length s) 2) as Hd.
    case_decide; [lia|apply lookup_ge_None_2; lia].
Qed.


Lemma decimal_value_snoc s : forall acc c,
  decimal_value acc (s ++ [c]) = decimal_value acc s * 10 + digit_value c.
Proof.
  induction s as [|x s IH]; intros acc c; simpl; [reflexivity|]. apply IH.
Qed.

Lemma digit_char m :
  0 <= m < 10 ->
  let d := ascii_of_nat (48 + Z.to_nat m) in
  digit_value d = m /\ is_digit d = true /\ d <> NUL.
Proof.
  intros Hm d.
  assert (nat_of_ascii d = (48 + Z.to_nat m)%nat) as Hd
    by (apply nat_ascii_embedding; lia).
  clearbody d. unfold digit_value, is_digit. rewrite Hd.
  split; [lia|]. split.
  - apply andb_true_iff. split; apply Nat.leb_le; lia.
  - intros Hn. apply (f_equal nat_of_ascii) in Hn. rewrite Hd in Hn.
    change (nat_of_ascii NUL) with 0%nat in Hn. lia.
Qed.

Lemma slot_digits_decimal room : forall t,
  0 <= t < 10 ^ Z.of_nat (S room) ->
  let ds := slot_digits (S room) t in
  ds <> []
  /\ Forall (fun c => is_digit c = true) ds
  /\ Forall (fun c => c <> NUL) ds
  /\ decimal_value 0 (reverse ds) = t
  /\ (head (reverse ds) = Some "0"%char -> t = 0).
Proof.
  induction room as [|r IH]; intros t Ht.
  - change (10 ^ Z.of_nat 1) with 10 in Ht.
    pose proof (Z.div_small t 10 Ht) as Hq.
    pose proof (Z.mod_small t 10 Ht) as Hm.
    cbn [slot_digits]. cbv zeta.
    rewrite Z.rem_mod_nonneg, Z.quot_div_nonneg, Hq, Hm by lia.
    pose proof (digit_char t Ht) as Hdc. cbv zeta in Hdc.
    set (d := ascii_of_nat (48 + Z.to_nat t)) in *. clearbody d.
    destruct Hdc as (Hv & Hd & Hn).
    replace (if 0 <? 0 then [] else []) with (@nil ascii) by reflexivity.
    split; [discriminate|]. split; [repeat constructor; exact Hd|].
    split; [repeat constructor; exact Hn|].
    unfold reverse. cbn [rev_append decimal_value head].
    rewrite Hv. split; [lia|].
    intros [= ->]. change (digit_value "0") with 0 in Hv. lia.
  - assert (0 <= t) as H0 by lia.
    pose proof (Z.mod_pos_bound t 10 ltac:(lia)) as Hmod.
    pose proof (Z.div_mod t 10 ltac:(lia)) as Hdm.
    pose proof (digit_char (t mod 10) Hmod) as Hdc. cbv zeta in Hdc.
    assert (0 <= t / 10 < 10 ^ Z.of_nat (S r)) as Hr.
    { split; [apply Z.div_pos; lia|]. apply Z.div_lt_upper_bound; [lia|].
      rewrite (Nat2Z.inj_succ (S r)), Z.pow_succ_r in Ht by lia. lia. }
    destruct (IH (t / 10) Hr) as (Hne & Hdig & Hnul & Hval & Hpad).
    remember (slot_digits (S r) (t / 10)) as ds eqn:Hds.
    change (slot_digits (S (S r)) t) with
      (ascii_of_nat (48 + Z.to_nat (Z.rem t 10))
       :: (if 0 <? Z.quot t 10 then slot_digits (S r) (Z.quot t 10) else [])).
    cbv zeta.
    rewrite Z.rem_mod_nonneg, Z.quot_div_nonneg, <- Hds by lia.
    set (d := ascii_of_nat (48 + Z.to_nat (t mod 10))) in *. clearbody d.
    destruct Hdc as (Hv & Hd & Hn).
    destruct (Z.ltb_spec 0 (t / 10)) as [Hq|Hq].
    + split; [discriminate|]. split; [now constructor|].
      split; [now constructor|].
      rewrite reverse_cons, decimal_value_snoc, Hval, Hv.
      split; [lia|].
      intros Hh. exfalso.
      destruct (reverse ds) as [|x xs] eqn:Hrev.
      * apply (f_equal length) in Hrev. rewrite length_reverse in Hrev.
        destruct ds; [contradiction|discriminate].
      * simpl in Hh. specialize (Hpad Hh). lia.
    + assert (t / 10 = 0) as Hz by lia.
      split; [discriminate|]. split; [repeat constructor; exact Hd|].
      split; [repeat constructor; exact Hn|].
      unfold reverse. cbn [rev_append decimal_value head].
      rewrite Hv. split; [lia|].
      intros [= ->]. change (digit_value "0") with 0 in Hv. lia.
Qed.

(** X1. For every slot number from 0 up to 9999999 (the numbers whose
    digits fit [slot_str]), the default nickname is "user" followed by the
    decimal digits of the slot number, most significant digit first and
    without padding: the digits read back as the slot number, and the
    first digit is 0 only for slot 0. *)
Theorem default_name_decimal slot :
  0 <= slot < 10 ^ 7 ->
  exists digits,
    default_name slot = str "user" ++ digits
    /\ digits <> []
    /\ Forall (fun c => is_digit c = true) digits
    /\ decimal_value 0 digits = slot
    /\ (head digits = Some "0"%char -> slot = 0).
Proof.
  intros Hs.
  destruct (slot_digits_decimal 6 slot Hs) as (Hne & Hdig & Hnul & Hval & Hpad).
  exists (reverse (slot_digits 7 slot)).
  unfold default_name, name_buf. rewrite reverse_in_place_reverse.
  change (cstr (str "user" ++ ?x)) with (str "user" ++ cstr x).
  rewrite cstr_app_NUL, cstr_no_NUL by (now apply Forall_reverse).
  split; [reflexivity|]. split.
  { intros Hr. apply (f_equal length) in Hr. rewrite length_reverse in Hr.
    destruct (slot_digits 7 slot); [contradiction|discriminate]. }
  split; [now apply Forall_reverse|split; assumption].
Qed.

(** X1 at slot 13. *)
Lemma default_name_decimal_witness :
  exists digits,
    default_name 13 = str "user" ++ digits /\ decimal_value 0 digits = 13.
Proof.
  destruct (default_name_decimal 13) as (digits & Hn & _ & _ & Hv & _).
  - lia.
  - exists digits. split; assumption.
Defined.


(** ** Slot searches *)

(** X2. [find_empty_slot] returns -1 exactly when every slot of the
    registry is active, and otherwise the lowest inactive slot. *)
Theorem find_empty_slot_lowest st :
  (find_empty_slot st = -1
   /\ forall i c, (i < MAX_CLIENTS)%nat -> clients st !! i = Some c ->
                  active c = true)
  \/ exists k c,
       find_empty_slot st = Z.of_nat k
       /\ (k < MAX_CLIENTS)%nat
       /\ clients st !! k = Some c /\ active c = false
       /\ forall i c', (i < k)%nat -> clients st !! i = Some c' ->
                       active c' = true.
Proof.
  unfold find_empty_slot.
  destruct (find_empty_in_spec (clients st) MAX_CLIENTS 0%nat)
    as [[Hf Hall]|(k & c & Hf & Hk & Hc & Ha & Hlow)].
  - left. split; [exact Hf|]. intros i c Hi. apply Hall. lia.
  - right. exists k, c. split; [exact Hf|]. split; [lia|].
    split; [exact Hc|]. split; [exact Ha|].
    intros i c' Hi. apply Hlow. lia.
Qed.

Lemma find_fd_in_spec cl h n : forall a,
  (find_fd_in (seq a n) cl h = -1
   /\ forall i c, (a <= i < a + n)%nat -> cl !! i = Some c ->
                  active c = true -> fd c <> h)
  \/ exists k c,
       find_fd_in (seq a n) cl h = Z.of_nat k
       /\ (a <= k < a + n)%nat /\ cl !! k = Some c
       /\ active c = true /\ fd c = h
       /\ forall i c', (a <= i < k)%nat -> cl !! i = Some c' ->
                       active c' = true -> fd c' <> h.
Proof.
  induction n as [|n IH]; intros a; simpl.
  - left. split; [reflexivity|]. intros; lia.
  - assert ((forall c, cl !! a = Some c -> active c = true -> fd c <> h) ->
            (find_fd_in (seq (S a) n) cl h = -1
             /\ forall i c, (a <= i < a + S n)%nat -> cl !! i = Some c ->
                            active c = true -> fd c <> h)
            \/ exists k c,
                 find_fd_in (seq (S a) n) cl h = Z.of_nat k
                 /\ (a <= k < a + S n)%nat /\ cl !! k = Some c
                 /\ active c = true /\ fd c = h
                 /\ forall i c', (a <= i < k)%nat -> cl !! i = Some c' ->
                                 active c' = true -> fd c' <> h) as Hskip.
    { intros Hno.
      destruct (IH (S a))
        as [[Hf Hall]|(k & c' & Hf & Hk & Hc' & Ha' & Hfd & Hlow)].
      - left. split; [exact Hf|]. intros i c0 Hi Hi0.
        destruct (decide (i = a)) as [->|Hne]; [now apply Hno|].
        apply (Hall i c0); [lia|exact Hi0].
      - right. exists k, c'.
        split; [exact Hf|]. split; [lia|]. split; [exact Hc'|].
        split; [exact Ha'|]. split; [exact Hfd|].
        intros i c0 Hi Hi0. destruct (decide (i = a)) as [->|Hne];
          [now apply Hno|]. apply (Hlow i c0); [lia|exact Hi0]. }
    destruct (cl !! a) as [c|] eqn:Hc.
    + destruct (active c) eqn:Ha; simpl.
      * destruct (Z.eqb_spec (fd c) h) as [Heq|Hneq].
        -- right. exists a, c.
           split; [reflexivity|]. split; [lia|]. split; [exact Hc|].
           split; [exact Ha|]. split; [exact Heq|]. intros; lia.
        -- apply Hskip. intros c0 [= <-] _. exact Hneq.
      * apply Hskip. intros c0 [= <-]. congruence.
    + apply Hskip. intros c0 [=].
Qed.

(** X3. [find_client_by_fd] returns -1 exactly when no active slot holds
    the descriptor, and otherwise the lowest active slot holding it;
    inactive slots are never returned. *)
Theorem find_client_by_fd_lowest h st :
  (find_client_by_fd h st = -1
   /\ forall i c, (i < MAX_CLIENTS)%nat -> clients st !! i = Some c ->
                  active c = true -> fd c <> h)
  \/ exists k c,
       find_client_by_fd h st = Z.of_nat k
       /\ (k < MAX_CLIENTS)%nat
       /\ clients st !! k = Some c /\ active c = true /\ fd c = h
       /\ forall i c', (i < k)%nat -> clients st !! i = Some c' ->
                       active c' = true -> fd c' <> h.
Proof.
  unfold find_client_by_fd.
  destruct (find_fd_in_spec (clients st) h MAX_CLIENTS 0%nat)
    as [[Hf Hall]|(k & c & Hf & Hk & Hc & Ha & Hfd & Hlow)].
  - left. split; [exact Hf|]. intros i c Hi. apply Hall. lia.
  - right. exists k, c. split; [exact Hf|]. split; [lia|].
    split; [exact Hc|]. split; [exact Ha|]. split; [exact Hfd|].
    intros i c' Hi. apply Hlow. lia.
Qed.


(** ** Accepting a connection *)

Lemma find_empty_slot_inactive st k c :
  find_empty_slot st = Z.of_nat k ->
  clients st !! k = Some c ->
  (k < MAX_CLIENTS)%nat /\ active c = false.
Proof.
  unfold find_empty_slot. intros Hf Hc.
  destruct (find_empty_in_spec (clients st) MAX_CLIENTS 0%nat)
    as [[Hm _]|(k' & c' & Hf' & Hk & Hc' & Ha & _)]; [lia|].
  assert (k' = k) as -> by lia. split; [lia|congruence].
Qed.





(** X5. When accept fails (returns a negative value, which includes
    having no connection pending), the failure is logged and nothing
    else happens: no slot is taken, nothing is written or closed. *)
Theorem accept_failure_logged E st h a p :
  env_accept E (trace st) (server_sock st) = (h, a, p) ->
  h < 0 ->
  handle_new_connection E st =
    mkState (clients st) (server_sock st) (num_clients st)
      (trace st ++ [EvAccept (server_sock st) h a p;
                    EvPrintf "chatserver: accept failed\n" []]).
Proof.
  intros Hacc Hh. unfold handle_new_connection. rewrite Hacc.
  destruct (Z.ltb_spec h 0); [|lia].
  unfold printf, emit. simpl. now rewrite <- app_assoc.
Qed.

(** X5 at the two-session registry. *)
Lemma accept_failure_logged_witness :
  clients (handle_new_connection (one_shot REof (-1, 0, 0)) two_sessions) =
  clients two_sessions.
Proof.
  rewrite (accept_failure_logged (one_shot REof (-1, 0, 0)) two_sessions
             (-1) 0 0); [reflexivity|reflexivity|lia].
Defined.

(** X6. A descriptor that no active session holds is found by
    [find_client_by_fd] in the slot where the accept installs it, and is
    no longer found once that slot has been released. *)
Theorem accepted_descriptor_lookup E st h a p k c :
  env_accept E (trace st) (server_sock st) = (h, a, p) ->
  0 <= h ->
  find_empty_slot st = Z.of_nat k ->
  clients st !! k = Some c ->
  (forall i c0, clients st !! i = Some c0 -> active c0 = true -> fd c0 <> h) ->
  let st' := handle_new_connection E st in
  find_client_by_fd h st' = Z.of_nat k
  /\ find_client_by_fd h (remove_client (Z.of_nat k) st') = -1.
Proof.
  intros Hacc Hh Hk Hc Hfresh st'. subst st'.
  destruct (find_empty_slot_inactive st k c Hk Hc) as [Hkr Ha].
  destruct (handle_new_connection_accepts E st h a p k c Hacc Hh Hk Hc)
    as (D & HD & _).
  cbv zeta in HD. rewrite HD.
  set (c1 := mkClient h true _ a p).
  pose proof (lookup_lt_Some _ _ _ Hc) as Hlt.
  split.
  - unfold find_client_by_fd. cbn [clients].
    destruct (find_fd_in_spec (<[k:=c1]> (clients st)) h MAX_CLIENTS 0%nat)
      as [[_ Hall]|(k' & c' & Hf & Hk' & Hc' & Ha' & Hfd & Hlow)].
    + exfalso. apply (Hall k c1); [lia| |reflexivity|reflexivity].
      now apply list_lookup_insert_eq.
    + rewrite Hf. f_equal.
      destruct (decide (k' = k)) as [?|Hne]; [assumption|].
      rewrite list_lookup_insert_ne in Hc' by congruence.
      exfalso. exact (Hfresh k' c' Hc' Ha' Hfd).
  - rewrite (remove_client_active _ _ c1);
      [|lia|cbn [clients]; rewrite Nat2Z.id; now apply list_lookup_insert_eq
       |reflexivity].
    unfold find_client_by_fd. cbn [clients]. rewrite Nat2Z.id.
    rewrite list_insert_insert_eq.
    destruct (find_fd_in_spec (<[k:=released c1]> (clients st)) h
                MAX_CLIENTS 0%nat)
      as [[Hf _]|(k' & c' & _ & _ & Hc' & Ha' & Hfd & _)]; [exact Hf|].
    exfalso. apply list_lookup_insert_Some in Hc'
      as [(_ & <- & _)|(Hne & Hc')]; [discriminate|].
    exact (Hfresh k' c' Hc' Ha' Hfd).
Qed.

(** X6 at the two-session registry and an accept returning descriptor 9. *)
Lemma accepted_descriptor_lookup_witness :
  find_client_by_fd 9
    (handle_new_connection (one_shot REof (9, 1, 2)) two_sessions) = 2.
Proof.
  destruct (accepted_descriptor_lookup (one_shot REof (9, 1, 2)) two_sessions
              9 1 2 2%nat free_client) as [H _].
  - reflexivity.
  - lia.
  - reflexivity.
  - reflexivity.
  - intros i c0 Hc0 Ha0.
    do 14 (destruct i as [|i]; [injection Hc0 as <-; vm_compute in Ha0 |- *;
                                 congruence|]).
    discriminate.
  - exact H.
Defined.


(** ** Commands and chat lines *)

Lemma is_name_cmd_iff d :
  is_name_cmd (Z.of_nat (length d)) d = true <->
  (6 < length d)%nat /\ take 6 d = str "/name ".
Proof.
  split; [|intros [H1 H2]; now apply is_name_cmd_prefix].
  unfold is_name_cmd, buf_is. rewrite !andb_true_iff.
  intros [[[[[[Hn H0] H1] H2] H3] H4] H5].
  apply Z.ltb_lt in Hn. split; [lia|].
  destruct d as [|c0 [|c1 [|c2 [|c3 [|c4 [|c5 r]]]]]]; simpl in Hn; try lia.
  cbn [nth] in *.
  apply Ascii.eqb_eq in H0, H1, H2, H3, H4, H5. subst. reflexivity.
Qed.

Lemma is_list_cmd_iff d :
  is_list_cmd (Z.of_nat (length d)) d = true <->
  (5 <= length d)%nat /\ take 5 d = str "/list".
Proof.
  unfold is_list_cmd, buf_is. rewrite !andb_true_iff. split.
  - intros [[[[[Hn H0] H1] H2] H3] H4].
    apply Z.leb_le in Hn. split; [lia|].
    destruct d as [|c0 [|c1 [|c2 [|c3 [|c4 r]]]]]; simpl in Hn; try lia.
    cbn [nth] in *.
    apply Ascii.eqb_eq in H0, H1, H2, H3, H4. subst. reflexivity.
  - intros [Hlen Hpre].
    destruct d as [|c0 [|c1 [|c2 [|c3 [|c4 r]]]]]; simpl in Hlen; try lia.
    cbn in Hpre. injection Hpre as -> -> -> -> ->.
    repeat split; try reflexivity. apply Z.leb_le. simpl length. lia.
Qed.

Lemma incoming_length E st c d :
  incoming E st c = RData d -> (length d <= 511)%nat.
Proof.
  unfold incoming, clamp_read.
  destruct (env_read E (trace st) (fd c)) as [d0| | |]; try discriminate.
  intros [= <-]. rewrite length_take.
  change (Z.to_nat (BUF_SIZE - 1)) with 511%nat. lia.
Qed.

Lemma list_loop_rows slot cl n : forall a msg,
  list_loop (seq a n) slot cl msg =
  msg ++ listing_rows a slot (take n (drop a cl)).
Proof.
  induction n as [|n IH]; intros a msg; simpl.
  - now rewrite app_nil_r.
  - destruct (cl !! a) as [c|] eqn:Hc.
    + rewrite (drop_S _ _ _ Hc). cbn [take listing_rows].
      destruct (active c); rewrite IH.
      * now rewrite <- app_assoc.
      * reflexivity.
    + rewrite IH.
      rewrite (drop_ge cl a), (drop_ge cl (S a))
        by (apply lookup_ge_None in Hc; lia).
      now rewrite !take_nil.
Qed.

Lemma build_list_msg_rows cl slot :
  length cl = MAX_CLIENTS ->
  build_list_msg cl slot =
  (str "Connected users:" ++ [LF]) ++ listing_rows 0 slot cl.
Proof.
  intros Hlen. unfold build_list_msg.
  rewrite list_loop_rows, drop_0, take_ge by lia. reflexivity.
Qed.

Lemma listing_rows_length slot cl : forall i,
  length (listing_rows i slot cl) =
  (4 * count_active cl + active_name_bytes cl
   + (if decide (i <= slot)%nat
      then match cl !! (slot - i)%nat with
           | Some c => if active c then 6 else 0
           | None => 0
           end
      else 0))%nat.
Proof.
  unfold count_active.
  induction cl as [|c cl IH]; intros i; cbn [listing_rows].
  - simpl. case_decide; reflexivity.
  - rewrite length_app, IH. cbn [List.filter active_name_bytes].
    destruct (Nat.eqb_spec i slot) as [->|Hne].
    + rewrite Nat.sub_diag. cbn [lookup list_lookup].
      repeat case_decide; try lia.
      destruct (active c); unfold list_row; rewrite ?Nat.eqb_refl;
        rewrite ?length_app; cbn [length str list_ascii_of_string]; lia.
    + destruct (decide (i <= slot)%nat) as [Hle|Hgt].
      * replace (slot - i)%nat with (S (slot - S i)) by lia.
        cbn [lookup list_lookup].
        pose proof (proj2 (Nat.eqb_neq i slot) Hne) as Hneb.
        repeat case_decide; try lia.
        destruct (cl !! (slot - S i)%nat) as [c0|]; [destruct (active c0)|];
          destruct (active c); unfold list_row; rewrite ?Hneb;
          rewrite ?length_app; cbn [length]; lia.
      * pose proof (proj2 (Nat.eqb_neq i slot) Hne) as Hneb.
        repeat case_decide; try lia.
        destruct (active c); unfold list_row; rewrite ?Hneb;
          rewrite ?length_app; cbn [length]; lia.
Qed.

Lemma active_name_bytes_bound cl :
  Forall name_ok cl -> (active_name_bytes cl <= 31 * count_active cl)%nat.
Proof.
  unfold count_active.
  induction 1 as [|c cl [_ Hc] _ IH]; cbn [active_name_bytes List.filter];
    [lia|].
  unfold NAME_SIZE in Hc. destruct (active c); cbn [length]; lia.
Qed.

(** X7. As long as the listing fits its buffer (the last index stored is
    below the 512 bytes of [list_msg]), any read that begins with the
    five bytes of the list token, whatever follows them, is answered with
    the listing: a header line and one row per active session in slot
    order, the requester's row marked.  The listing is written once, to
    the requester only; the registry and the session count are unchanged,
    and its length is 23 bytes plus four bytes and the nickname for each
    active session. *)
Theorem list_command_reply E slot st c d :
  clients st !! slot = Some c ->
  active c = true ->
  length (clients st) = MAX_CLIENTS ->
  incoming E st c = RData d ->
  (5 <= length d)%nat ->
  take 5 d = str "/list" ->
  (list_msg_last_index (clients st) slot < LIST_MSG_SIZE)%nat ->
  let reply := (str "Connected users:" ++ [LF])
               ++ listing_rows 0 slot (clients st) in
  (exists r,
     handle_client_data E slot st =
       mkState (clients st) (server_sock st) (num_clients st)
         (trace st ++ [EvRead (fd c) (RData d); EvWrite (fd c) reply r]))
  /\ length reply =
       (23 + 4 * count_active (clients st)
        + active_name_bytes (clients st))%nat.
Proof.
  intros Hc Ha Hlen Hin Hd Hpre _ reply. split.
  - unfold handle_client_data. rewrite Hc. unfold sys_read.
    fold (incoming E st c). rewrite Hin. cbv zeta.
    cbn [read_ret read_buf].
    destruct (Z.leb_spec (Z.of_nat (length d)) 0); [lia|].
    assert (is_name_cmd (Z.of_nat (length d)) d = false) as ->.
    { apply not_true_is_false. rewrite is_name_cmd_iff. intros [H6 Hn].
      apply (f_equal (take 5)) in Hn. rewrite take_take in Hn.
      change (5 `min` 6)%nat with 5%nat in Hn. rewrite Hpre in Hn.
      discriminate. }
    rewrite (proj2 (is_list_cmd_iff d)) by auto.
    unfold sys_write. cbn [fst emit clients trace].
    rewrite build_list_msg_rows by exact Hlen. fold reply.
    eexists. unfold emit. cbn [clients server_sock num_clients trace].
    rewrite <- app_assoc. reflexivity.
  - unfold reply. rewrite length_app, listing_rows_length.
    rewrite Nat.sub_0_r, Hc, Ha. case_decide; [|lia].
    change (length (str "Connected users:" ++ [LF])) with 17%nat. lia.
Qed.

(** X7 for the first of two sessions asking with trailing bytes. *)
Lemma list_command_reply_witness :
  writes_of
    (trace (handle_client_data (one_shot (RData (str "/listing")) (-1, 0, 0))
              0 two_sessions)) =
  [(4, str "Connected users:" ++ [LF]
       ++ str " - user0 (you)" ++ [LF] ++ str " - user1" ++ [LF])].
Proof.
  destruct (list_command_reply (one_shot (RData (str "/listing")) (-1, 0, 0))
              0%nat two_sessions (session 4 "user0") (str "/listing"))
    as [[r Hr] _].
  - reflexivity.
  - reflexivity.
  - reflexivity.
  - reflexivity.
  - simpl. lia.
  - reflexivity.
  - vm_compute. lia.
  - rewrite Hr. reflexivity.
Defined.

(** X8. With at most thirteen active sessions the listing fits its
    512-byte buffer, terminator included, whatever the nicknames are. *)
Theorem list_reply_fits st slot :
  length (clients st) = MAX_CLIENTS ->
  Forall name_ok (clients st) ->
  (count_active (clients st) <= 13)%nat ->
  (list_msg_last_index (clients st) slot < LIST_MSG_SIZE)%nat.
Proof.
  intros Hlen Hok Hcount. unfold list_msg_last_index, LIST_MSG_SIZE.
  rewrite build_list_msg_rows, length_app, listing_rows_length by exact Hlen.
  pose proof (active_name_bytes_bound _ Hok) as Hb.
  change (length (str "Connected users:" ++ [LF])) with 17%nat.
  case_decide; [|lia].
  destruct (clients st !! (slot - 0)%nat) as [c|]; [|lia].
  destruct (active c); lia.
Qed.

(** X8 at the two-session registry. *)
Lemma list_reply_fits_witness :
  (list_msg_last_index (clients two_sessions) 0 < LIST_MSG_SIZE)%nat.
Proof.
  apply list_reply_fits.
  - reflexivity.
  - repeat (apply Forall_cons; split;
            [split; [reflexivity|vm_compute; lia]|]).
    apply Forall_nil_2.
  - vm_compute. lia.
Defined.


Lemma chat_line_shape nm d :
  d <> [] ->
  (last d = Some LF ->
   chat_line nm d = ["["]%char ++ nm ++ ["]"; " "]%char ++ d)
  /\ (last d <> Some LF ->
      chat_line nm d = ["["]%char ++ nm ++ ["]"; " "]%char ++ d ++ [LF])
  /\ last (chat_line nm d) = Some LF
  /\ (length (chat_line nm d) <= length nm + length d + 4)%nat.
Proof.
  intros Hd. unfold chat_line.
  assert (last d = Some (nth (length d - 1) d NUL)) as Hlast.
  { rewrite last_lookup.
    destruct (nth_lookup_or_length d (length d - 1) NUL) as [H|H].
    - rewrite <- H. f_equal. lia.
    - destruct d; [contradiction|simpl in H; lia]. }
  destruct (Ascii.eqb_spec (nth (length d - 1) d NUL) LF) as [Heq|Hne].
  - rewrite Heq in Hlast.
    split; [intros _; now rewrite app_nil_r|].
    split; [intros Hl; contradiction|].
    split; [rewrite app_nil_r, !app_assoc, last_app, Hlast; reflexivity|].
    rewrite !length_app. cbn [length]. lia.
  - split; [intros Hl; rewrite Hlast in Hl; congruence|].
    split; [reflexivity|].
    split; [now rewrite !app_assoc, last_snoc|].
    rewrite !length_app. cbn [length]. lia.
Qed.

(** X9. A read that delivers data which is neither a rename nor a list
    command is relayed as a chat line: the nickname in brackets, a
    space, the bytes as read, and a line feed unless the data already
    ends with one, so the line always ends with a line feed.  The line is
    logged and written once to every other active session, never to the
    sender; nothing is closed, the registry is unchanged, and the line
    with its terminator fits the [BUF_SIZE + 64] bytes of its buffer. *)
Theorem chat_line_relayed E slot st c d :
  clients st !! slot = Some c ->
  name_ok c ->
  incoming E st c = RData d ->
  d <> [] ->
  ~ ((6 < length d)%nat /\ take 6 d = str "/name ") ->
  take 5 d <> str "/list" ->
  let line := chat_line (cstr (name c)) d in
  exists D,
    handle_client_data E slot st =
      mkState (clients st) (server_sock st) (num_clients st)
        (trace st ++ [EvRead (fd c) (RData d);
                      EvPrintf "chatserver: %s" [PStr (cstr line)]] ++ D)
    /\ writes_of D =
         map (fun i => (fd_of (clients st) i, line))
           (recipients (clients st) (Z.of_nat slot))
    /\ ~ In slot (recipients (clients st) (Z.of_nat slot))
    /\ closes_of D = []
    /\ (last d = Some LF ->
        line = ["["]%char ++ cstr (name c) ++ ["]"; " "]%char ++ d)
    /\ (last d <> Some LF ->
        line = ["["]%char ++ cstr (name c) ++ ["]"; " "]%char ++ d ++ [LF])
    /\ last line = Some LF
    /\ (length line < BROADCAST_SIZE)%nat.
Proof.
  intros Hc [_ Hnm] Hin Hd Hname Hlist line.
  pose proof (incoming_length E st c d Hin) as Hlen.
  destruct (chat_line_shape (cstr (name c)) d Hd)
    as (Hkeep & Hadd & Hlast & Hsize).
  unfold handle_client_data. rewrite Hc. unfold sys_read.
  fold (incoming E st c). rewrite Hin. cbv zeta. cbn [read_ret read_buf].
  destruct (Z.leb_spec (Z.of_nat (length d)) 0) as [H0|_].
  { destruct d; [contradiction|simpl in H0; lia]. }
  assert (is_name_cmd (Z.of_nat (length d)) d = false) as ->
    by (apply not_true_is_false; now rewrite is_name_cmd_iff).
  assert (is_list_cmd (Z.of_nat (length d)) d = false) as ->
    by (apply not_true_is_false; rewrite is_list_cmd_iff; tauto).
  fold line. split_broadcast E D W B P.
  exists D. unfold printf, emit.
  cbn [clients server_sock num_clients trace] in *.
  split; [now rewrite <- !app_assoc|]. split; [exact W|].
  split; [rewrite recipients_spec; intros (_ & c' & _ & _ & Hne); lia|].
  split; [now apply bcast_only_no_close|].
  split; [exact Hkeep|]. split; [exact Hadd|]. split; [exact Hlast|].
  unfold line. change BROADCAST_SIZE with 576%nat.
  unfold NAME_SIZE in Hnm. lia.
Qed.

(** X9 for the first of two sessions saying hi. *)
Lemma chat_line_relayed_witness :
  writes_of
    (trace (handle_client_data (one_shot (RData (str "hi")) (-1, 0, 0))
              0 two_sessions)) =
  [(5, str "[user0] hi" ++ [LF])].
Proof.
  destruct (chat_line_relayed (one_shot (RData (str "hi")) (-1, 0, 0))
              0%nat two_sessions (session 4 "user0") (str "hi"))
    as (D & HD & W & _).
  - reflexivity.
  - split; [reflexivity|vm_compute; lia].
  - reflexivity.
  - discriminate.
  - intros [H _]. simpl in H. lia.
  - discriminate.
  - rewrite HD. cbn [trace]. rewrite !writes_of_app, W. reflexivity.
Defined.

(** X10. For nicknames of at most 31 bytes, which is what a terminated
    name field holds, the welcome line and the join, leave and rename
    announcements all fit their 128-byte buffers, terminator included. *)
Theorem announcement_buffers_suffice c d :
  name_ok c ->
  let old := cstr (name c) in
  let new := cstr (rename_field d (name c)) in
  (length (welcome_msg old) < ANNOUNCE_SIZE)%nat
  /\ (length (join_msg old) < ANNOUNCE_SIZE)%nat
  /\ (length (leave_msg old) < ANNOUNCE_SIZE)%nat
  /\ (length (rename_msg old new) < ANNOUNCE_SIZE)%nat.
Proof.
  intros Hok old new.
  destruct (name_ok_rename c d Hok) as [_ Hnew]. cbn [name] in Hnew.
  destruct Hok as [_ Hold]. fold old in Hold. fold new in Hnew.
  unfold NAME_SIZE, ANNOUNCE_SIZE in *.
  unfold welcome_msg, join_msg, leave_msg, rename_msg.
  rewrite !length_app.
  change (length (str "Welcome to xv6 Chat Server! Your name is: "))
    with 42%nat.
  change (length (str "*** ")) with 4%nat.
  change (length (str " has joined the chat ***")) with 24%nat.
  change (length (str " has left the chat ***")) with 22%nat.
  change (length (str " is now known as ")) with 17%nat.
  cbn [length]. lia.
Qed.

(** X10 for the session user0 renaming itself to alice. *)
Lemma announcement_buffers_suffice_witness :
  (length (rename_msg (str "user0") (str "alice")) < ANNOUNCE_SIZE)%nat.
Proof.
  destruct (announcement_buffers_suffice (session 4 "user0")
              (str "/name alice" ++ [LF])) as (_ & _ & _ & H).
  - split; [reflexivity|vm_compute; lia].
  - exact H.
Defined.


(** ** The poll array and the event loop *)

Lemma count_active_le cl : (count_active cl <= length cl)%nat.
Proof. unfold count_active. apply List.filter_length_le. Qed.

Lemma poll_entries_active cl n : forall a,
  poll_entries (seq a n) cl =
  map (fun h => mkPollfd h POLLIN 0) (active_fds (take n (drop a cl))).
Proof.
  unfold active_fds. induction n as [|n IH]; intros a; simpl; [reflexivity|].
  destruct (cl !! a) as [c|] eqn:Hc.
  - rewrite (drop_S _ _ _ Hc). cbn [take List.filter].
    destruct (active c); cbn [map]; now rewrite IH.
  - rewrite IH.
    rewrite (drop_ge cl a), (drop_ge cl (S a))
      by (apply lookup_ge_None in Hc; lia).
    now rewrite !take_nil.
Qed.

(** X11. The poll array starts with the listening socket, followed by
    the descriptors of the active sessions in slot order and nothing
    else; every entry asks for readability with an empty result mask, and
    the array never has more than [MAX_CLIENTS + 1] entries. *)
Theorem build_poll_array_entries st :
  length (clients st) = MAX_CLIENTS ->
  build_poll_array st =
    map (fun h => mkPollfd h POLLIN 0)
      (server_sock st :: active_fds (clients st))
  /\ length (build_poll_array st) = S (count_active (clients st))
  /\ (length (build_poll_array st) <= POLL_SIZE)%nat.
Proof.
  intros Hlen. unfold build_poll_array.
  rewrite poll_entries_active, drop_0, take_ge by lia.
  split; [reflexivity|].
  assert (length (mkPollfd (server_sock st) POLLIN 0
                  :: map (fun h => mkPollfd h POLLIN 0)
                       (active_fds (clients st))) =
          S (count_active (clients st))) as Hn.
  { cbn [length]. unfold active_fds, count_active.
    now rewrite !length_map. }
  split; [exact Hn|]. rewrite Hn.
  pose proof (count_active_le (clients st)). unfold POLL_SIZE. lia.
Qed.

(** X11 at the two-session registry. *)
Lemma build_poll_array_entries_witness :
  build_poll_array two_sessions =
  [mkPollfd 3 POLLIN 0; mkPollfd 4 POLLIN 0; mkPollfd 5 POLLIN 0].
Proof.
  destruct (build_poll_array_entries two_sessions) as [H _].
  - reflexivity.
  - rewrite H. reflexivity.
Defined.

Lemma set_revents_zero fds revs :
  Forall (fun r => r = 0) revs ->
  Forall (fun p => revents p = 0) (set_revents fds revs).
Proof.
  revert revs. induction fds as [|p fds IH]; intros revs Hz; simpl;
    [constructor|].
  constructor.
  - simpl. destruct Hz; [reflexivity|assumption].
  - apply IH. destruct Hz; [constructor|assumption].
Qed.

Lemma find_entry_In fds h p : find_entry fds h = Some p -> In p fds.
Proof.
  induction fds as [|q fds IH]; simpl; [discriminate|].
  destruct (pfd q =? h); [intros [= <-]; now left|right; auto].
Qed.

Lemma client_loop_no_flags E fds ix : forall idx st,
  Forall (fun p => revents p = 0) fds ->
  client_loop E ix fds idx st = st.
Proof.
  induction ix as [|i ix IH]; intros idx st Hz; simpl; [reflexivity|].
  destruct (negb (idx <? length fds)%nat); [reflexivity|].
  destruct (clients st !! i) as [c|]; [|reflexivity].
  destruct (negb (active c)); [now apply IH|].
  destruct (find_entry (drop idx fds) (fd c)) as [p|] eqn:Hp; [|now apply IH].
  assert (revents p = 0) as Hr.
  { apply find_entry_In in Hp.
    assert (In p fds) as Hin
      by (rewrite <- (take_drop idx fds); apply in_or_app; now right).
    rewrite List.Forall_forall in Hz. now apply Hz. }
  unfold dispatch_entry. rewrite Hr. cbn [has_flag Z.land Z.eqb negb].
  now apply IH.
Qed.

(** X12. A turn of the loop in which the poll fails, times out or
    reports no condition on any descriptor runs no handler: nothing is
    accepted, read, written or closed, the registry is unchanged and the
    loop goes on.  A failed poll is logged. *)
Theorem idle_turn E st ready revs :
  env_poll E (trace st) (build_poll_array st) = (ready, revs) ->
  ready <= 0 \/ Forall (fun r => r = 0) revs ->
  cycle E st =
    (mkState (clients st) (server_sock st) (num_clients st)
       (trace st ++ EvPoll (build_poll_array st) ready revs
          :: (if ready <? 0
              then [EvPrintf "chatserver: poll error\n" []] else [])),
     true).
Proof.
  intros Hp Hidle. unfold cycle. rewrite Hp.
  destruct (Z.ltb_spec ready 0) as [Hneg|Hnn].
  { unfold printf, emit. cbn [clients server_sock num_clients trace].
    now rewrite <- app_assoc. }
  destruct (Z.eqb_spec ready 0) as [Hz|Hnz]; [reflexivity|].
  destruct Hidle as [Hle|Hzero]; [lia|].
  pose proof (set_revents_zero (build_poll_array st) revs Hzero) as Hall.
  assert (nth 0 (map revents (set_revents (build_poll_array st) revs)) 0 = 0)
    as ->.
  { cbn [build_poll_array set_revents map nth revents].
    destruct Hzero; [reflexivity|assumption]. }
  cbn [has_flag Z.land Z.eqb negb].
  now rewrite client_loop_no_flags.
Qed.

(** X12 for a poll that times out on the two-session registry. *)
Lemma idle_turn_witness :
  fst (cycle (poll_env 0 []) two_sessions) =
  mkState (clients two_sessions) 3 2
    [EvPoll (build_poll_array two_sessions) 0 []].
Proof.
  rewrite (idle_turn (poll_env 0 []) two_sessions 0 []);
    [reflexivity|reflexivity|left; lia].
Defined.

(** X13. The event loop is left in exactly one case: the poll reported
    at least one ready descriptor and the result mask of the listening
    socket carries the error or the hang-up flag. *)
Theorem loop_left_iff E st :
  snd (cycle E st) = false <->
  0 < fst (env_poll E (trace st) (build_poll_array st))
  /\ has_flag (listener_revents E st) (Z.lor POLLERR POLLHUP) = true.
Proof.
  unfold listener_revents, cycle.
  destruct (env_poll E (trace st) (build_poll_array st)) as [ready revs].
  cbn [fst snd].
  destruct (Z.ltb_spec ready 0); [cbn [snd]; split; [discriminate|lia]|].
  destruct (Z.eqb_spec ready 0); [cbn [snd]; split; [discriminate|lia]|].
  cbn [build_poll_array set_revents map nth revents].
  destruct (has_flag (nth 0 revs 0) (Z.lor POLLERR POLLHUP)); cbn [snd].
  - split; [intros _; split; [lia|reflexivity]|reflexivity].
  - split; [discriminate|intros [_ Hf]; discriminate].
Qed.

Lemma close_active_trace n : forall a st,
  close_active (seq a n) st =
  mkState (clients st) (server_sock st) (num_clients st)
    (trace st ++ map EvClose (active_fds (take n (drop a (clients st))))).
Proof.
  unfold active_fds. induction n as [|n IH]; intros a st; simpl.
  - rewrite app_nil_r. now destruct st.
  - destruct (clients st !! a) as [c|] eqn:Hc.
    + rewrite IH, (drop_S _ _ _ Hc). cbn [take List.filter].
      destruct (active c); cbn [map clients server_sock num_clients trace
                                sys_close emit];
        [now rewrite <- app_assoc|reflexivity].
    + rewrite IH.
      rewrite (drop_ge (clients st) a), (drop_ge (clients st) (S a))
        by (apply lookup_ge_None in Hc; lia).
      now rewrite !take_nil.
Qed.

(** X14. The shutdown code closes the handle of every active session
    exactly once, in slot order, then the listening socket, and exits
    with status 0.  It writes nothing (no leave announcement is sent) and
    leaves the registry as it is. *)
Theorem cleanup_closes_everything st :
  length (clients st) = MAX_CLIENTS ->
  cleanup st =
    mkState (clients st) (server_sock st) (num_clients st)
      (trace st
       ++ EvPrintf "chatserver: shutting down...\n" []
          :: map EvClose (active_fds (clients st))
       ++ [EvClose (server_sock st); EvExit 0]).
Proof.
  intros Hlen. unfold cleanup. rewrite close_active_trace.
  unfold printf, sys_close, emit.
  cbn [clients server_sock num_clients trace].
  rewrite drop_0, take_ge by lia.
  rewrite <- !app_assoc. reflexivity.
Qed.

(** X14 at the two-session registry. *)
Lemma cleanup_closes_everything_witness :
  closes_of (trace (cleanup two_sessions)) = [4; 5; 3]
  /\ writes_of (trace (cleanup two_sessions)) = [].
Proof.
  rewrite (cleanup_closes_everything two_sessions eq_refl).
  split; reflexivity.
Defined.


(** ** What the handlers leave alone *)

Lemma remove_client_shape i st c :
  clients st !! i = Some c ->
  remove_client (Z.of_nat i) st = st
  \/ (active c = true
      /\ remove_client (Z.of_nat i) st =
           mkState (<[i:=released c]> (clients st)) (server_sock st)
             (num_clients st - 1)
             (trace st ++ [EvPrintf disconnected_fmt
                             [PStr (shown_name c); PInt (Z.of_nat i);
                              PInt (fd c)];
                           EvClose (fd c)])).
Proof.
  intros Hc.
  destruct (remove_client_cases (Z.of_nat i) st) as [H|(c' & Hr & Hc' & Ha)];
    [now left|].
  rewrite Nat2Z.id in Hc'. assert (c' = c) as -> by congruence.
  right. split; [exact Ha|].
  rewrite (remove_client_active _ _ c Hr); rewrite ?Nat2Z.id; auto.
Qed.

Lemma handle_client_data_shape E i st c :
  clients st !! i = Some c ->
  exists c1 D,
    handle_client_data E i st =
      mkState (<[i:=c1]> (clients st)) (server_sock st)
        (if active c && negb (active c1)
         then num_clients st - 1 else num_clients st)
        (trace st ++ D)
    /\ ((active c = true /\ c1 = released c)
        \/ (fd c1 = fd c /\ active c1 = active c
            /\ addr c1 = addr c /\ port c1 = port c
            /\ (name c1 = name c
                \/ exists d, name c1 = rename_field d (name c)))).
Proof.
  intros Hc. unfold handle_client_data. rewrite Hc. unfold sys_read.
  cbv zeta. set (r := clamp_read _ _).
  set (st0 := emit (EvRead (fd c) r) st).
  assert (clients st0 !! i = Some c) as Hc0 by exact Hc.
  assert (forall D,
            mkState (clients st) (server_sock st) (num_clients st)
              (trace st0 ++ D) =
            mkState (<[i:=c]> (clients st)) (server_sock st)
              (if active c && negb (active c)
               then num_clients st - 1 else num_clients st)
              (trace st ++ EvRead (fd c) r :: D)) as Hsame.
  { intros D. rewrite list_insert_id by exact Hc.
    replace (active c && negb (active c)) with false
      by (now destruct (active c)).
    cbn [st0 emit trace]. now rewrite <- app_assoc. }
  destruct (read_ret r <=? 0).
  { split_broadcast E D W B P.
    destruct (remove_client_shape i st0 c Hc0) as [-> | [Ha ->]].
    - exists c, (EvRead (fd c) r :: D). split; [apply Hsame|].
      right. repeat (split; [reflexivity|]). now left.
    - exists (released c),
        (EvRead (fd c) r
         :: [EvPrintf disconnected_fmt
               [PStr (shown_name c); PInt (Z.of_nat i); PInt (fd c)];
             EvClose (fd c)] ++ D).
      cbn [clients server_sock num_clients trace st0 emit active released].
      rewrite Ha. cbn [andb negb].
      split; [now rewrite <- !app_assoc|]. left. auto. }
  destruct (is_name_cmd (read_ret r) (read_buf r)).
  { split_broadcast E D W B P.
    exists (mkClient (fd c) (active c) (rename_field (read_buf r) (name c))
              (addr c) (port c)), (EvRead (fd c) r :: D).
    cbn [clients server_sock num_clients trace st0 emit set_clients active].
    replace (active c && negb (active c)) with false
      by (now destruct (active c)).
    split; [now rewrite <- app_assoc|].
    right. cbn [fd active addr port name].
    repeat (split; [reflexivity|]). right. eauto. }
  destruct (is_list_cmd (read_ret r) (read_buf r)).
  { unfold sys_write. cbn [fst].
    eexists c, _. split; [apply (Hsame [_])|]. right. repeat (split; [reflexivity|]). now left. }
  split_broadcast E D W B P.
  eexists c, _.
  unfold printf. cbn [clients server_sock num_clients trace emit].
  split; [rewrite <- app_assoc; exact (Hsame _)|].
  right. repeat (split; [reflexivity|]). now left.
Qed.

(** X15. Handling the data or the hang-up of the session in slot [i]
    changes no other slot of the registry, and neither the length of the
    registry nor the listening socket. *)
Theorem other_slots_untouched E i j st :
  j <> i ->
  clients (handle_client_data E i st) !! j = clients st !! j
  /\ clients (client_hangup E i st) !! j = clients st !! j
  /\ length (clients (handle_client_data E i st)) = length (clients st)
  /\ length (clients (client_hangup E i st)) = length (clients st)
  /\ server_sock (handle_client_data E i st) = server_sock st
  /\ server_sock (client_hangup E i st) = server_sock st.
Proof.
  intros Hne.
  assert (clients (handle_client_data E i st) !! j = clients st !! j
          /\ length (clients (handle_client_data E i st)) = length (clients st)
          /\ server_sock (handle_client_data E i st) = server_sock st)
    as (H1 & H2 & H3).
  { destruct (clients st !! i) as [c|] eqn:Hc.
    - destruct (handle_client_data_shape E i st c Hc) as (c1 & D & -> & _).
      cbn [clients server_sock]. rewrite length_insert.
      now rewrite list_lookup_insert_ne by congruence.
    - unfold handle_client_data. now rewrite Hc. }
  assert (clients (client_hangup E i st) !! j = clients st !! j
          /\ length (clients (client_hangup E i st)) = length (clients st)
          /\ server_sock (client_hangup E i st) = server_sock st)
    as (H4 & H5 & H6).
  { unfold client_hangup. destruct (clients st !! i) as [c|] eqn:Hc; [|auto].
    split_broadcast E D W B P. cbn [clients server_sock].
    destruct (remove_client_shape i st c Hc) as [-> | [_ ->]]; [auto|].
    cbn [clients server_sock]. rewrite length_insert.
    now rewrite list_lookup_insert_ne by congruence. }
  repeat split; assumption.
Qed.

(** X15 for slot 1 while slot 0 is renamed. *)
Lemma other_slots_untouched_witness :
  clients (handle_client_data
             (one_shot (RData (str "/name alice" ++ [LF])) (-1, 0, 0))
             0 two_sessions) !! 1%nat =
  Some (session 5 "user1").
Proof.
  destruct (other_slots_untouched
              (one_shot (RData (str "/name alice" ++ [LF])) (-1, 0, 0))
              0%nat 1%nat two_sessions) as [H _].
  - discriminate.
  - rewrite H. reflexivity.
Defined.

Lemma handle_new_connection_shape E st :
  (exists D,
     handle_new_connection E st =
       mkState (clients st) (server_sock st) (num_clients st) (trace st ++ D))
  \/ exists k c h a p D,
       clients st !! k = Some c /\ active c = false /\ 0 <= h
       /\ handle_new_connection E st =
            mkState
              (<[k:=mkClient h true
                      (strcpy (name c) (default_name (Z.of_nat k))) a p]>
                 (clients st))
              (server_sock st) (num_clients st + 1) (trace st ++ D).
Proof.
  destruct (env_accept E (trace st) (server_sock st)) as [[h a] p] eqn:Hacc.
  destruct (Z.ltb_spec h 0) as [Hneg|Hpos].
  { left. unfold handle_new_connection. rewrite Hacc.
    destruct (Z.ltb_spec h 0); [|lia].
    eexists. unfold printf, emit.
    cbn [clients server_sock num_clients trace].
    now rewrite <- app_assoc. }
  unfold find_empty_slot.
  destruct (find_empty_in_spec (clients st) MAX_CLIENTS 0%nat)
    as [[Hf _]|(k & c & Hf & _ & Hc & Ha & _)].
  - left. unfold handle_new_connection. rewrite Hacc.
    destruct (Z.ltb_spec h 0); [lia|].
    change (find_empty_slot (emit (EvAccept (server_sock st) h a p) st))
      with (find_empty_in (seq 0 MAX_CLIENTS) (clients st)).
    rewrite Hf. cbn [Z.ltb Z.compare].
    eexists. unfold sys_write, sys_close, printf, emit.
    cbn [clients server_sock num_clients trace].
    now rewrite <- !app_assoc.
  - right.
    destruct (handle_new_connection_accepts E st h a p k c Hacc Hpos Hf Hc)
      as (D & HD & _).
    cbv zeta in HD. exists k, c, h, a, p. eexists.
    split; [exact Hc|]. split; [exact Ha|]. split; [exact Hpos|]. exact HD.
Qed.

(** X16. Accepting a connection never disturbs an active session: every
    slot that was active keeps its record, the registry keeps its length
    and the listening socket stays the same, whether the connection is
    admitted, rejected for lack of room or the accept fails. *)
Theorem active_sessions_survive_accept E st j c :
  clients st !! j = Some c ->
  active c = true ->
  clients (handle_new_connection E st) !! j = Some c
  /\ length (clients (handle_new_connection E st)) = length (clients st)
  /\ server_sock (handle_new_connection E st) = server_sock st.
Proof.
  intros Hc Ha.
  destruct (handle_new_connection_shape E st)
    as [[D ->]|(k & c0 & h & a & p & D & Hk & Ha0 & _ & ->)];
    cbn [clients server_sock]; [auto|].
  rewrite length_insert. split; [|auto].
  rewrite list_lookup_insert_ne; [exact Hc|]. intros ->. congruence.
Qed.

(** X16 for slot 0 of the two-session registry. *)
Lemma active_sessions_survive_accept_witness :
  clients (handle_new_connection (one_shot REof (9, 1, 2)) two_sessions)
    !! 0%nat = Some (session 4 "user0").
Proof.
  destruct (active_sessions_survive_accept (one_shot REof (9, 1, 2))
              two_sessions 0%nat (session 4 "user0")) as [H _].
  - reflexivity.
  - reflexivity.
  - exact H.
Defined.

(** X17. An entry that reports a hang-up or an error but no data takes
    the session down without reading it: the disconnect is logged, the
    handle is closed once, the slot is released, the count drops by one,
    and one leave announcement with the session's nickname is written to
    every remaining active session. *)
Theorem hang_up_without_data E p i st c :
  clients st !! i = Some c ->
  active c = true ->
  (i < MAX_CLIENTS)%nat ->
  has_flag (revents p) POLLIN = false ->
  has_flag (revents p) (Z.lor POLLERR POLLHUP) = true ->
  exists D,
    let cl' := <[i:=released c]> (clients st) in
    dispatch_entry E p i st =
      mkState cl' (server_sock st) (num_clients st - 1)
        (trace st ++ [EvPrintf disconnected_fmt
                        [PStr (shown_name c); PInt (Z.of_nat i); PInt (fd c)];
                      EvClose (fd c)] ++ D)
    /\ writes_of D =
         map (fun k => (fd_of cl' k, leave_msg (cstr (name c))))
           (recipients cl' (-1))
    /\ ~ In i (recipients cl' (-1))
    /\ closes_of D = [] /\ reads_of D = [].
Proof.
  intros Hc Ha Hi Hin Hup. unfold dispatch_entry. rewrite Hin, Hup.
  unfold client_hangup. rewrite Hc.
  rewrite (remove_client_active _ _ c); rewrite ?Nat2Z.id; auto;
    [|unfold MAX_CLIENTS in *; lia].
  split_broadcast E D W B P. exists D. cbv zeta.
  cbn [clients server_sock num_clients trace] in *.
  split; [now rewrite <- app_assoc|]. split; [exact W|].
  split; [apply not_recipient_released|].
  split; [now apply bcast_only_no_close|now apply bcast_only_no_read].
Qed.

(** X17 for slot 0 of the two-session registry. *)
Lemma hang_up_without_data_witness :
  reads_of
    (trace (dispatch_entry (one_shot REof (-1, 0, 0))
              (mkPollfd 4 POLLIN POLLHUP) 0 two_sessions)) = []
  /\ writes_of
       (trace (dispatch_entry (one_shot REof (-1, 0, 0))
                 (mkPollfd 4 POLLIN POLLHUP) 0 two_sessions)) =
     [(5, leave_msg (str "user0"))].
Proof.
  destruct (hang_up_without_data (one_shot REof (-1, 0, 0))
              (mkPollfd 4 POLLIN POLLHUP) 0%nat two_sessions
              (session 4 "user0")) as (D & HD & W & _ & _ & R).
  - reflexivity.
  - reflexivity.
  - unfold MAX_CLIENTS. lia.
  - reflexivity.
  - reflexivity.
  - cbv zeta in HD, W. rewrite HD. cbn [trace].
    rewrite !reads_of_app, !writes_of_app, R, W. split; reflexivity.
Defined.


(** ** Start-up *)

(** X18. Start-up either reaches the event loop or exits with status 1.
    It reaches the loop only with a listening socket that was created,
    bound and put to listen successfully, with all slots free
    (descriptor -1, empty nickname), a session count of 0 and nothing
    closed.  If the socket cannot be created the program exits without
    closing anything; if bind or listen fails it closes the socket and
    exits. *)
Theorem startup_outcomes E :
  match startup E with
  | inl st =>
      0 <= server_sock st
      /\ clients st = replicate MAX_CLIENTS free_client
      /\ num_clients st = 0
      /\ find_empty_slot st = 0
      /\ closes_of (trace st) = []
      /\ exists b l,
           0 <= b /\ 0 <= l
           /\ In (EvBind (server_sock st) b) (trace st)
           /\ In (EvListen (server_sock st) (Z.of_nat MAX_CLIENTS) l)
                (trace st)
  | inr st =>
      last (trace st) = Some (EvExit 1)
      /\ closes_of (trace st) =
           (if server_sock st <? 0 then [] else [server_sock st])
      /\ num_clients st = 0
  end.
Proof.
  unfold startup.
  match goal with |- context [env_socket E ?t] => set (sock := env_socket E t) end.
  destruct (Z.ltb_spec sock 0) as [Hs|Hs].
  { cbn. destruct (Z.ltb_spec sock 0); [auto|lia]. }
  match goal with |- context [env_bind E ?t sock] => set (b := env_bind E t sock) end.
  destruct (Z.ltb_spec b 0) as [Hb|Hb].
  { cbn. destruct (Z.ltb_spec sock 0); [lia|auto]. }
  match goal with |- context [env_listen E ?t sock] =>
    set (l := env_listen E t sock) end.
  destruct (Z.ltb_spec l 0) as [Hl|Hl].
  { cbn. destruct (Z.ltb_spec sock 0); [lia|auto]. }
  cbn [server_sock clients num_clients printf emit init_clients set_clients
       static_state].
  split; [exact Hs|]. split; [reflexivity|]. split; [reflexivity|].
  split; [reflexivity|]. split; [reflexivity|].
  exists b, l. split; [exact Hb|]. split; [exact Hl|].
  cbn [trace app]. split.
  - do 6 right. left. reflexivity.
  - do 7 right. left. reflexivity.
Qed.

(** ** The session counter and the slots *)

Lemma count_active_insert cl : forall i c c1,
  cl !! i = Some c ->
  (count_active (<[i:=c1]> cl) + (if active c then 1 else 0) =
   count_active cl + (if active c1 then 1 else 0))%nat.
Proof.
  unfold count_active.
  induction cl as [|x cl IH]; intros [|i] c c1 Hc; try discriminate.
  - injection Hc as ->. simpl.
    destruct (active c), (active c1); simpl; lia.
  - simpl in *. specialize (IH i c c1 Hc).
    destruct (active x); simpl; lia.
Qed.

Lemma Consistent_same st st' :
  clients st' = clients st -> num_clients st' = num_clients st ->
  Consistent st -> Consistent st'.
Proof. unfold Consistent. intros -> ->. auto. Qed.

Lemma Consistent_update st i c c1 n' tr ss :
  Consistent st ->
  clients st !! i = Some c ->
  slot_ok c1 ->
  n' = num_clients st + (if active c1 then 1 else 0)
       - (if active c then 1 else 0) ->
  Consistent (mkState (<[i:=c1]> (clients st)) ss n' tr).
Proof.
  intros (Hl & Hn & Hok) Hc Hc1 ->. unfold Consistent.
  cbn [clients num_clients].
  pose proof (count_active_insert (clients st) i c c1 Hc) as Hcount.
  split; [now rewrite length_insert|]. split.
  - rewrite Hn. destruct (active c), (active c1); lia.
  - now apply Forall_insert.
Qed.

Lemma slot_ok_released c : slot_ok (released c).
Proof.
  unfold slot_ok. cbn [active released fd]. split; [reflexivity|].
  apply released_cstr.
Qed.

Lemma Consistent_lookup st i c :
  Consistent st -> clients st !! i = Some c -> slot_ok c.
Proof.
  intros (_ & _ & Hok) Hc. rewrite Forall_lookup in Hok. eauto.
Qed.

Lemma Consistent_handle_client_data E i st c :
  Consistent st -> clients st !! i = Some c -> active c = true ->
  Consistent (handle_client_data E i st).
Proof.
  intros Hst Hc Ha.
  destruct (handle_client_data_shape E i st c Hc)
    as (c1 & D & -> & [[_ ->]|(Hfd & Hact & _)]).
  - eapply Consistent_update;
      [exact Hst|exact Hc|apply slot_ok_released|].
    rewrite Ha. cbn [active released andb negb]. lia.
  - pose proof (Consistent_lookup st i c Hst Hc) as Hok.
    eapply Consistent_update; [exact Hst|exact Hc| |].
    + unfold slot_ok in *. rewrite Hact, Ha in *. now rewrite Hfd.
    + rewrite Hact, Ha. cbn [andb negb]. lia.
Qed.

Lemma Consistent_client_hangup E i st :
  Consistent st -> Consistent (client_hangup E i st).
Proof.
  intros Hst. unfold client_hangup.
  destruct (clients st !! i) as [c|] eqn:Hc; [|exact Hst].
  split_broadcast E D W B P.
  destruct (remove_client_shape i st c Hc) as [-> | [Ha ->]].
  - eapply Consistent_same; [| |exact Hst]; reflexivity.
  - cbn [clients server_sock num_clients trace].
    eapply Consistent_update;
      [exact Hst|exact Hc|apply slot_ok_released|].
    rewrite Ha. cbn [active released]. lia.
Qed.

Lemma Consistent_handle_new_connection E st :
  Consistent st -> Consistent (handle_new_connection E st).
Proof.
  intros Hst.
  destruct (handle_new_connection_shape E st)
    as [[D ->]|(k & c & h & a & p & D & Hk & Ha & Hh & ->)].
  - eapply Consistent_same; [| |exact Hst]; reflexivity.
  - eapply Consistent_update; [exact Hst|exact Hk| |].
    + unfold slot_ok. cbn [active fd]. exact Hh.
    + rewrite Ha. cbn [active]. lia.
Qed.

Lemma Consistent_client_loop E fds ix : forall idx st,
  Consistent st -> Consistent (client_loop E ix fds idx st).
Proof.
  induction ix as [|i ix IH]; intros idx st H; simpl; [exact H|].
  destruct (negb (idx <? length fds)%nat); [exact H|].
  destruct (clients st !! i) as [c|] eqn:Hc; [|exact H].
  destruct (active c) eqn:Ha; cbn [negb]; [|now apply IH].
  destruct (find_entry (drop idx fds) (fd c)); apply IH; auto.
  unfold dispatch_entry.
  assert (Consistent (if has_flag (revents p) POLLIN
                      then handle_client_data E i st else st)) as H1.
  { destruct (has_flag (revents p) POLLIN); [|exact H].
    eapply Consistent_handle_client_data; eauto. }
  destruct (has_flag (revents p) (Z.lor POLLERR POLLHUP));
    [now apply Consistent_client_hangup|exact H1].
Qed.

Lemma Consistent_cycle E st : Consistent st -> Consistent (fst (cycle E st)).
Proof.
  intros H. unfold cycle.
  destruct (env_poll E (trace st) (build_poll_array st)) as [ready revs].
  set (st0 := emit _ st).
  assert (Consistent st0) as H0
    by (eapply Consistent_same; [| |exact H]; reflexivity).
  destruct (ready <? 0);
    [cbn [fst]; eapply Consistent_same; [| |exact H]; reflexivity|].
  destruct (ready =? 0); [exact H0|].
  set (r0 := nth 0 _ 0).
  assert (Consistent (if has_flag r0 POLLIN
                      then handle_new_connection E st0 else st0)) as H1.
  { destruct (has_flag r0 POLLIN);
      [now apply Consistent_handle_new_connection|exact H0]. }
  destruct (has_flag r0 (Z.lor POLLERR POLLHUP)); cbn [fst].
  - eapply Consistent_same; [| |exact H1]; reflexivity.
  - now apply Consistent_client_loop.
Qed.

Lemma startup_state E :
  match startup E with
  | inl st => clients st = replicate MAX_CLIENTS free_client
              /\ num_clients st = 0
  | inr _ => True
  end.
Proof.
  unfold startup.
  match goal with |- context [env_socket E ?t] => set (sock := env_socket E t) end.
  destruct (sock <? 0); [exact I|].
  match goal with |- context [env_bind E ?t sock] => set (b := env_bind E t sock) end.
  destruct (b <? 0); [exact I|].
  match goal with |- context [env_listen E ?t sock] =>
    set (l := env_listen E t sock) end.
  destruct (l <? 0); [exact I|].
  split; reflexivity.
Qed.

Lemma Consistent_startup E st : startup E = inl st -> Consistent st.
Proof.
  intros Hs. pose proof (startup_state E) as H. rewrite Hs in H.
  destruct H as (Hcl & Hn). unfold Consistent. rewrite Hcl, Hn.
  split; [reflexivity|]. split; [reflexivity|].
  apply Forall_replicate. unfold slot_ok. cbn [active free_client fd name].
  split; reflexivity.
Qed.

Lemma reachable_Consistent E st : reachable E st -> Consistent st.
Proof.
  induction 1 as [st Hs|st st' _ IH Hc].
  - eapply Consistent_startup; eauto.
  - change st' with (fst (st', true)). rewrite <- Hc.
    now apply Consistent_cycle.
Qed.

(** X19. In every reachable state the session counter equals the number
    of active slots, and it lies between 0 and [MAX_CLIENTS]. *)
Theorem session_count_exact E st :
  reachable E st ->
  num_clients st = Z.of_nat (count_active (clients st))
  /\ 0 <= num_clients st <= Z.of_nat MAX_CLIENTS.
Proof.
  intros Hr. destruct (reachable_Consistent E st Hr) as (Hl & Hn & _).
  split; [exact Hn|]. pose proof (count_active_le (clients st)). lia.
Qed.

(** X19 at the state reached after one accepted connection. *)
Lemma session_count_exact_witness :
  num_clients (state_after one_accept_env 1) =
  Z.of_nat (count_active (clients (state_after one_accept_env 1))).
Proof.
  destruct (session_count_exact one_accept_env (state_after one_accept_env 1))
    as [H _].
  - apply state_after_reachable. vm_compute. discriminate.
  - exact H.
Defined.

(** X20. In every reachable state the registry has [MAX_CLIENTS] slots;
    an active slot holds a descriptor that is not negative, and a free
    slot holds descriptor -1 and the empty nickname, so that no stale
    descriptor or name survives a release. *)
Theorem slots_clean E st :
  reachable E st ->
  length (clients st) = MAX_CLIENTS
  /\ forall i c,
       clients st !! i = Some c ->
       (active c = true -> 0 <= fd c)
       /\ (active c = false -> fd c = -1 /\ cstr (name c) = []).
Proof.
  intros Hr. pose proof (reachable_Consistent E st Hr) as Hst.
  split; [apply Hst|]. intros i c Hc.
  pose proof (Consistent_lookup st i c Hst Hc) as Hok. unfold slot_ok in Hok.
  destruct (active c); split; intros; try discriminate; assumption.
Qed.

(** X20 at the state reached after one accepted connection. *)
Lemma slots_clean_witness :
  length (clients (state_after one_accept_env 1)) = MAX_CLIENTS.
Proof.
  destruct (slots_clean one_accept_env (state_after one_accept_env 1))
    as [H _].
  - apply state_after_reachable. vm_compute. discriminate.
  - exact H.
Defined.


(** ** The program as a whole *)

Lemma client_loop_frame E fds ix : forall idx st,
  server_sock (client_loop E ix fds idx st) = server_sock st
  /\ length (clients (client_loop E ix fds idx st)) = length (clients st).
Proof.
  induction ix as [|i ix IH]; intros idx st; simpl; [auto|].
  destruct (negb (idx <? length fds)%nat); [auto|].
  destruct (clients st !! i) as [c|] eqn:Hc; [|auto].
  destruct (negb (active c)); [apply IH|].
  destruct (find_entry (drop idx fds) (fd c)) as [p|]; [|apply IH].
  destruct (IH (S idx) (dispatch_entry E p i st)) as [-> ->].
  unfold dispatch_entry.
  assert (exists c1 D,
            handle_client_data E i st =
            mkState (<[i:=c1]> (clients st)) (server_sock st)
              (if active c && negb (active c1)
               then num_clients st - 1 else num_clients st)
              (trace st ++ D)) as (c1 & D & Hd)
    by (destruct (handle_client_data_shape E i st c Hc) as (c1 & D & H & _);
        eauto).
  set (st1 := if has_flag (revents p) POLLIN
              then handle_client_data E i st else st).
  assert (server_sock st1 = server_sock st
          /\ length (clients st1) = length (clients st)) as [Hs1 Hl1].
  { unfold st1. destruct (has_flag (revents p) POLLIN); [|auto].
    rewrite Hd. cbn [server_sock clients]. now rewrite length_insert. }
  destruct (has_flag (revents p) (Z.lor POLLERR POLLHUP)); [|auto].
  unfold client_hangup. destruct (clients st1 !! i) as [c2|] eqn:Hc2; [|auto].
  split_broadcast E D2 W B P. cbn [server_sock clients].
  destruct (remove_client_shape i st1 c2 Hc2) as [-> | [_ ->]]; [auto|].
  cbn [server_sock clients]. now rewrite length_insert.
Qed.

Lemma cycle_frame E st :
  server_sock (fst (cycle E st)) = server_sock st
  /\ length (clients (fst (cycle E st))) = length (clients st).
Proof.
  unfold cycle.
  destruct (env_poll E (trace st) (build_poll_array st)) as [ready revs].
  destruct (ready <? 0); [auto|]. destruct (ready =? 0); [auto|].
  set (st0 := emit _ st). set (r0 := nth 0 _ 0).
  assert (server_sock (if has_flag r0 POLLIN
                       then handle_new_connection E st0 else st0) =
          server_sock st
          /\ length (clients (if has_flag r0 POLLIN
                              then handle_new_connection E st0 else st0)) =
             length (clients st)) as [Hs Hl].
  { destruct (has_flag r0 POLLIN); [|auto].
    destruct (handle_new_connection_shape E st0)
      as [[D ->]|(k & c & h & a & p & D & _ & _ & _ & ->)];
      cbn [server_sock clients]; [auto|].
    now rewrite length_insert. }
  destruct (has_flag r0 (Z.lor POLLERR POLLHUP)); cbn [fst].
  - auto.
  - destruct (client_loop_frame E (set_revents (build_poll_array st) revs)
                (seq 0 MAX_CLIENTS) 1
                (if has_flag r0 POLLIN
                 then handle_new_connection E st0 else st0)) as [-> ->].
    auto.
Qed.

Lemma startup_sock E st : startup E = inl st -> 0 <= server_sock st.
Proof.
  unfold startup.
  match goal with |- context [env_socket E ?t] => set (sock := env_socket E t) end.
  destruct (Z.ltb_spec sock 0) as [Hs|Hs]; [discriminate|].
  match goal with |- context [env_bind E ?t sock] => set (b := env_bind E t sock) end.
  destruct (b <? 0); [discriminate|].
  match goal with |- context [env_listen E ?t sock] =>
    set (l := env_listen E t sock) end.
  destruct (l <? 0); [discriminate|].
  intros [= <-]. exact Hs.
Qed.

(** X21. In every reachable state the listening socket is the one that
    start-up created, a descriptor that is not negative: no turn of the
    event loop, whatever the poll reports, replaces it. *)
Theorem listener_fixed E st :
  reachable E st ->
  exists st0,
    startup E = inl st0
    /\ server_sock st = server_sock st0
    /\ 0 <= server_sock st.
Proof.
  induction 1 as [st Hs|st st' _ (st0 & Hs & Heq & Hnn) Hc].
  - exists st. split; [exact Hs|]. split; [reflexivity|].
    now apply (startup_sock E).
  - exists st0. destruct (cycle_frame E st) as [Hsock _].
    rewrite Hc in Hsock. cbn [fst] in Hsock.
    split; [exact Hs|]. rewrite Hsock. auto.
Qed.

(** X21 at the state reached after one accepted connection. *)
Lemma listener_fixed_witness :
  0 <= server_sock (state_after one_accept_env 1).
Proof.
  destruct (listener_fixed one_accept_env (state_after one_accept_env 1))
    as (st0 & _ & _ & H).
  - apply state_after_reachable. vm_compute. discriminate.
  - exact H.
Defined.

Lemma event_loop_exit E turns : forall st st',
  event_loop E turns st = Some st' ->
  exists s1, st' = cleanup s1 /\ server_sock s1 = server_sock st.
Proof.
  induction turns as [|k IH]; intros st st' H; simpl in H; [discriminate|].
  destruct (cycle_frame E st) as [Hsock _].
  destruct (cycle E st) as [s1 [|]] eqn:Hc; cbn [fst] in Hsock.
  - destruct (IH s1 st' H) as (s2 & -> & Hs2).
    exists s2. split; [reflexivity|congruence].
  - injection H as <-. exists s1. auto.
Qed.

(** X22. The program ends in one of two ways only.  Either start-up
    fails and it exits with status 1, or the event loop is left and the
    shutdown code runs: then the last handle closed is the listening
    socket created at start-up and the program exits with status 0. *)
Theorem main_exit E turns st :
  main E turns = Some st ->
  (startup E = inr st /\ last (trace st) = Some (EvExit 1))
  \/ exists st0 s1,
       startup E = inl st0
       /\ st = cleanup s1
       /\ last (trace st) = Some (EvExit 0)
       /\ last (closes_of (trace st)) = Some (server_sock st0).
Proof.
  unfold main. destruct (startup E) as [st0|st1] eqn:Hs.
  - intros H. right.
    destruct (event_loop_exit E turns st0 st H) as (s1 & -> & Hsock).
    exists st0, s1. split; [reflexivity|]. split; [reflexivity|].
    unfold cleanup. rewrite close_active_trace.
    unfold printf, sys_close, emit.
    cbn [clients server_sock num_clients trace].
    split; [apply last_snoc|].
    rewrite !closes_of_app. cbn [closes_of]. rewrite app_nil_r.
    rewrite last_snoc. now rewrite Hsock.
  - intros [= <-]. left. split; [reflexivity|].
    revert Hs. unfold startup.
    match goal with |- context [env_socket E ?t] =>
      set (sock := env_socket E t) end.
    destruct (sock <? 0); [intros [= <-]; apply last_snoc|].
    match goal with |- context [env_bind E ?t sock] =>
      set (b := env_bind E t sock) end.
    destruct (b <? 0); [intros [= <-]; apply last_snoc|].
    match goal with |- context [env_listen E ?t sock] =>
      set (l := env_listen E t sock) end.
    destruct (l <? 0); [intros [= <-]; apply last_snoc|discriminate].
Qed.

(** X22 for a listening socket that reports an error in the first turn. *)
Lemma main_exit_witness :
  last (trace (default static_state (main (poll_env 1 [POLLERR]) 1))) =
  Some (EvExit 0).
Proof.
  destruct (main_exit (poll_env 1 [POLLERR]) 1
              (default static_state (main (poll_env 1 [POLLERR]) 1)))
    as [[H _]|(st0 & s1 & _ & _ & H & _)].
  - reflexivity.
  - discriminate H.
  - exact H.
Defined.
